(** * safetar: a shallow embedding of the Guard, Sandbox and Streamer phases

    The development follows the layout of the package:
    - [_exceptions.py]  the error taxonomy ([Exc]),
    - [_events.py]      the policy enums,
    - [_sandbox.py]     path resolution, link verification, sanitisation,
    - [_guard.py]       entry-type classification, filename checks, pre-scan,
    - [_streamer.py]    the byte monitor and the atomic per-member write,
    - [_core.py]        the orchestrator [extractall].

    Python values are modelled as follows.  A [str] is a list of Unicode code
    points ([N]); an [int] is a [Z]; a POSIX [pathlib.Path] that is absolute is
    the list of its components; a [set[Path]] is a [gset]; the files found
    under a path are a [gmap].  A call that can raise returns a [Result]; code
    that mutates objects or the disk threads the state explicitly, and the
    state survives a raise, as it does in Python. *)

From Stdlib Require Import ZArith NArith Ascii String.
From Stdlib Require QArith.
From stdpp Require Import base option list gmap sets.

Local Open Scope Z_scope.

(** ** Python strings *)

Definition char := N.
Definition str := list char.

(** [u "abc"] is the Python literal ["abc"] (ASCII only). *)
Definition u (s : string) : str :=
  List.map N_of_ascii (list_ascii_of_string s).

Definition SLASH : char := 47%N.
Definition BACKSLASH : char := 92%N.
Definition COLON : char := 58%N.
Definition NUL : char := 0%N.
Definition DOT : str := [46%N].
Definition DOTDOT : str := [46%N; 46%N].

Definition len {A} (l : list A) : Z := Z.of_nat (length l).

(** [s.startswith(p)] *)
Fixpoint startswith (s p : str) {struct p} : bool :=
  match p, s with
  | [], _ => true
  | _ :: _, [] => false
  | a :: p', b :: s' => (N.eqb a b) && startswith s' p'
  end.

(** [c in s] for a single character [c]. *)
Definition contains_char (c : char) (s : str) : bool :=
  existsb (N.eqb c) s.

(** [s.rstrip(c)] for a single character. *)
Fixpoint rstrip (c : char) (s : str) : str :=
  match s with
  | [] => []
  | x :: s' =>
      match rstrip c s' with
      | [] => if N.eqb x c then [] else [x]
      | r => x :: r
      end
  end.

(** [s.replace(a, b)] for single characters. *)
Definition replace (a b : char) (s : str) : str :=
  List.map (fun c => if N.eqb c a then b else c) s.

(** [s.split(sep)] for a single-character separator: every occurrence
    splits, empty fields are kept, and the result is never empty. *)
Fixpoint split (sep : char) (s : str) : list str :=
  match s with
  | [] => [[]]
  | c :: s' =>
      if N.eqb c sep then [] :: split sep s'
      else match split sep s' with
           | [] => [[c]]
           | p :: ps => (c :: p) :: ps
           end
  end.

(** [sep.join(parts)] *)
Fixpoint join (sep : char) (parts : list str) : str :=
  match parts with
  | [] => []
  | [p] => p
  | p :: ps => p ++ sep :: join sep ps
  end.

Definition str_eqb (a b : str) : bool := bool_decide (a = b).

(** The part of Python's Unicode database the code relies on:
    [unicodedata.normalize("NFC", _)], [str.isalpha] on one character and
    the whitespace test behind [str.strip]. *)
Class Unicode := {
  normalize_NFC : str -> str;
  isalpha : char -> bool;
  isspace : char -> bool;
}.

(** [s.strip() == ""]: the string holds whitespace only. *)
Definition strip_is_empty `{Unicode} (s : str) : bool := forallb isspace s.

(** ** Exceptions ([_exceptions.py] and the built-in ones the code meets)

    An exception of the package carries the fixed part of its message. *)

Inductive Exc :=
| UnsafeEntryError (msg : string)
| UnsafeEntryTypeError (msg : string)
| FileSizeExceededError
| TotalSizeExceededError
| CompressionRatioError
| FileCountExceededError
| NestingDepthError
| MalformedArchiveError
| TarError
| EOFError
| OSError
| TypeError
| KeyError
| ZeroDivisionError
| RuntimeError
| ValueError
| OtherError.

Global Instance Exc_eq_dec : EqDecision Exc.
Proof. solve_decision. Defined.

(** [isinstance(e, SafetarError)] *)
Definition is_SafetarError (e : Exc) : bool :=
  match e with
  | UnsafeEntryError _ | UnsafeEntryTypeError _ | FileSizeExceededError
  | TotalSizeExceededError | CompressionRatioError | FileCountExceededError
  | NestingDepthError | MalformedArchiveError => true
  | _ => false
  end.


Inductive Result (A : Type) :=
| Ok (a : A)
| Raise (e : Exc).
Arguments Ok {A} a.
Arguments Raise {A} e.

Global Instance Result_ret : MRet Result := fun A a => Ok a.
Global Instance Result_bind : MBind Result := fun A B k r =>
  match r with
  | Ok a => k a
  | Raise e => Raise e
  end.

(** ** Paths ([pathlib] on POSIX, absolute paths only) *)

Definition Path := list str.

(** [str(p)] *)
Definition path_str (p : Path) : str :=
  match p with
  | [] => [SLASH]
  | _ => concat (List.map (fun c => SLASH :: c) p)
  end.

(** The components [pathlib] keeps of a string: empty and [.] fields go,
    [..] stays. *)
Definition path_parts (s : str) : list str :=
  List.filter (fun c => negb (str_eqb c []) && negb (str_eqb c DOT)) (split SLASH s).

(** [p / s]: an absolute [s] replaces [p]. *)
Definition path_join (p : Path) (s : str) : Path :=
  if startswith s [SLASH] then path_parts s else p ++ path_parts s.

(** [p.parent] and [p.name] *)
Definition path_parent (p : Path) : Path := removelast p.
Definition path_name (p : Path) : str := List.last p [].

(** [p.with_name(n)] *)
Definition path_with_name (p : Path) (n : str) : Path := removelast p ++ [n].

Definition os_sep : str := [SLASH].

(** ** The world outside the interpreter

    [w_files] holds the regular files by path, with their content.
    [w_faults] is the fault schedule: each system call the source guards
    against failure takes the next entry, and fails with [OSError] when it is
    [true] (an exhausted schedule means no further fault).  [w_rand] feeds
    [random.randint].  [w_trace] is a ghost log of the calls made, each with
    its success flag; it only serves to state ordering properties. *)

Inductive Event :=
| EvMember (name : str)               (* _extract_one entered for a member *)
| EvMkdir (p : Path)                  (* p.mkdir(parents=True, exist_ok=True) *)
| EvTouch (p : Path)
| EvOpen (p : Path)                   (* open(p, "wb") *)
| EvWrite (p : Path) (n : Z)
| EvRename (src dst : Path)
| EvUnlink (p : Path)                 (* p.unlink(missing_ok=True) *)
| EvLink (target dst : Path)          (* os.link *)
| EvSymlink (target : str) (dst : Path)
| EvChown (p : Path) (uid gid : Z)
| EvChmod (p : Path) (mode : Z)
| EvUtime (p : Path) (mtime : Z)
| EvDirMetadata (p : Path)            (* _apply_metadata entered for a deferred directory *)
| EvCallback (event_type : string).   (* on_security_event invoked *)

Global Instance Event_eq_dec : EqDecision Event.
Proof. solve_decision. Defined.

Record World := {
  w_files : gmap Path (list Init.Byte.byte);
  w_faults : list bool;
  w_rand : list N;
  w_now : Z;
  w_trace : list (Event * bool);
}.

(** The ids of the running process: [os.getuid()] is the real user id and
    [os.geteuid()] the effective one, and likewise for the group. *)
Record Process := {
  ruid : Z;
  euid : Z;
  rgid : Z;
  egid : Z;
  pid : N;
}.

Definition os_getuid (p : Process) : Z := ruid p.
Definition os_geteuid (p : Process) : Z := euid p.
Definition os_getgid (p : Process) : Z := rgid p.
Definition os_getegid (p : Process) : Z := egid p.

(** What the file system answers about a path.  These answers depend on
    symbolic links, mount points and everything else found on the disk, so
    they are left to the environment. [realpath] is [Path.resolve()] and
    [os_readlink] is [os.readlink], each with [None] for an [OSError].
    [resolve_loops] tells where [Path.resolve()] meets a loop of symbolic
    links and raises [RuntimeError] for it, as Python 3.10 to 3.12 do.
    [is_symlink_fails] tells where the [lstat] behind [Path.is_symlink()]
    fails with an error that [is_symlink] raises again (a name that is too
    long, a directory that may not be searched) instead of answering
    [False]. *)
Class PathOracle := {
  realpath : World -> Path -> option Path;
  path_exists : World -> Path -> bool;
  path_is_symlink : World -> Path -> bool;
  os_readlink : World -> Path -> option str;
  resolve_loops : World -> Path -> bool;
  is_symlink_fails : World -> Path -> bool;
}.

(** ** [_sandbox.py] *)

Definition MAX_PATH : Z := 4096.

Section Resolver.
Context `{Unicode} `{PathOracle}.

(** The loop over [parts] of [resolve_member_path], with [clean_parts] as
    it stands when the loop reaches the rest of the list. *)
Fixpoint collect_parts (parts clean_parts : list str) : Result (list str) :=
  match parts with
  | [] => Ok clean_parts
  | part :: rest =>
      if str_eqb part [] || str_eqb part DOT then collect_parts rest clean_parts
      else if str_eqb part DOTDOT then
        Raise (UnsafeEntryError "Path traversal component '..' in member name")
      else collect_parts rest (clean_parts ++ [part])
  end.

(** [_norm[i]], where the index is known to be in range. *)
Definition char_at (s : str) (i : nat) : char := nth i s NUL.

Definition is_windows_absolute (_norm : str) : bool :=
  (3 <=? len _norm) && N.eqb (char_at _norm 1) COLON
  && N.eqb (char_at _norm 2) SLASH && isalpha (char_at _norm 0).

(** [real == base or str(real).startswith(str(base) + os.sep)] *)
Definition inside (base real : Path) : bool :=
  bool_decide (real = base) || startswith (path_str real) (path_str base ++ os_sep).

Definition resolve_member_path (w : World) (base_dir : Path) (member_name : str)
  : Result Path :=
  match realpath w base_dir with
  | None => Raise OSError
  | Some base =>
      (* 1. NFC normalise. *)
      let normalized := normalize_NFC member_name in
      (* 2. Normalise separators and check for absolute paths. *)
      let _norm := replace BACKSLASH SLASH normalized in
      if startswith _norm [SLASH] then
        Raise (UnsafeEntryError "Absolute path detected in member name")
      else if is_windows_absolute _norm then
        Raise (UnsafeEntryError "Absolute Windows path detected in member name")
      else
        (* 3. Split, strip empties and lone dots, reject traversals. *)
        clean_parts ← collect_parts (split SLASH _norm) [];
        if bool_decide (clean_parts = []) then
          Raise (UnsafeEntryError "Member name resolves to empty path")
        else
          (* 4. Null-byte check (on the cleaned name). *)
          let joined := join SLASH clean_parts in
          if contains_char NUL joined then
            Raise (UnsafeEntryError "Null byte in member name")
          else
            (* 5. Length check. *)
            let resolved := path_join base joined in
            if MAX_PATH <? len (path_str resolved) then
              Raise (UnsafeEntryError "Resolved path length exceeds MAX_PATH (4096)")
            else
              (* Belt-and-braces: final containment check. *)
              let real := default resolved (realpath w resolved) in
              if negb (inside base real) then
                Raise (UnsafeEntryError "Resolved path escapes base directory")
              else Ok resolved
  end.

(** [Path.resolve()] with everything it raises.  A NUL in the path gives
    [ValueError] whatever the disk holds; a loop of symbolic links gives
    [RuntimeError]; neither is an [OSError]. *)
Definition resolve (w : World) (p : Path) : Result Path :=
  if contains_char NUL (path_str p) then Raise ValueError
  else if resolve_loops w p then Raise RuntimeError
  else
    match realpath w p with
    | Some real => Ok real
    | None => Raise OSError
    end.

(** [Path.is_symlink()]: [False] for a NUL in the path and for a missing
    file; any other [OSError] of [lstat] is raised again. *)
Definition is_symlink (w : World) (p : Path) : Result bool :=
  if contains_char NUL (path_str p) then Ok false
  else if is_symlink_fails w p then Raise OSError
  else Ok (path_is_symlink w p).

(** The [for _ in range(max_follow)] loop of [verify_symlink_chain]. *)
Fixpoint follow_chain (w : World) (base current : Path) (hops : nat)
  : Result unit :=
  match hops with
  | O => Raise (UnsafeEntryError "Symlink chain exceeds maximum depth")
  | S hops' =>
      match is_symlink w current with
      | Raise e => Raise e
      | Ok false => Ok tt
      | Ok true =>
          match os_readlink w current with
          | None => Raise OSError
          | Some link_target =>
              match resolve w (path_join (path_parent current) link_target) with
              | Raise e => Raise e
              | Ok current' =>
                  if negb (inside base current') then
                    Raise (UnsafeEntryError "Symlink chain escapes extraction root at")
                  else follow_chain w base current' hops'
              end
          end
      end
  end.

(** [with contextlib.suppress(OSError): current = current.resolve()]: an
    [OSError] leaves the raw path, any other exception goes through. *)
Definition resolve_or_raw (w : World) (current : Path) : Result Path :=
  match resolve w current with
  | Ok real => Ok real
  | Raise OSError => Ok current
  | Raise e => Raise e
  end.

Definition verify_symlink_chain (w : World) (base_dir symlink_path : Path)
    (symlink_target : str) (max_follow : nat) : Result unit :=
  match resolve w base_dir with
  | Raise e => Raise e
  | Ok base =>
      (* Resolve the immediate target relative to the symlink's parent. *)
      match resolve_or_raw w (path_join (path_parent symlink_path) symlink_target) with
      | Raise e => Raise e
      | Ok current =>
          if negb (inside base current) then
            Raise (UnsafeEntryError "Symlink target escapes extraction root")
          else follow_chain w base current max_follow
      end
  end.

Definition verify_hardlink_target (w : World) (base_dir link_name_resolved : Path)
    (link_target : str) (extracted_paths : gset Path) : Result Path :=
  (* Resolve the target the same way we resolve member names. *)
  target_resolved ← resolve_member_path w base_dir link_target;
  if negb (bool_decide (target_resolved ∈ extracted_paths)) then
    Raise (UnsafeEntryError
             "Hardlink target not yet extracted (forward reference rejected)")
  else if negb (path_exists w target_resolved) then
    Raise (UnsafeEntryError "Hardlink target does not exist on disk")
  else Ok target_resolved.
End Resolver.

Definition S_ISUID : Z := 2048.
Definition S_ISGID : Z := 1024.
Definition S_ISVTX : Z := 512.
Definition S_IWUSR : Z := 128.
Definition S_IWGRP : Z := 16.
Definition S_IWOTH : Z := 2.

Definition sanitise_mode (mode : Z) (strip_special_bits strip_write_bits : bool) : Z :=
  let mode :=
    if strip_special_bits
    then Z.land mode (Z.lnot (Z.lor (Z.lor S_ISUID S_ISGID) S_ISVTX)) else mode in
  let mode :=
    if strip_write_bits
    then Z.land mode (Z.lnot (Z.lor (Z.lor S_IWUSR S_IWGRP) S_IWOTH)) else mode in
  mode.

Definition sanitise_ownership (proc : Process) (uid gid : Z) (preserve_ownership : bool)
  : Z * Z :=
  if preserve_ownership then (uid, gid)
  else (os_getuid proc, os_getgid proc).

(** Timestamps are taken in whole seconds; [time.time()] reads the clock
    of the world. *)
Definition sanitise_mtime (w : World) (mtime : Z) (clamp_timestamps : bool) : Z :=
  if negb clamp_timestamps then mtime
  else
    let max_ts := 2 ^ 32 - 1 in
    if (mtime <? 0) || (max_ts <? mtime) then w_now w else mtime.

(** ** [_events.py]: the policy enums *)

Module SymlinkPolicy.
Inductive t := REJECT | IGNORE | RESOLVE_INTERNAL.
End SymlinkPolicy.

Module HardlinkPolicy.
Inductive t := REJECT | INTERNAL.
End HardlinkPolicy.

Module SparsePolicy.
Inductive t := REJECT | MATERIALISE.
End SparsePolicy.

(** ** [tarfile]: member headers and type codes *)

Record TarInfo := {
  ti_name : str;
  ti_type : N;                         (* the type byte *)
  ti_linkname : str;
  ti_mode : option Z;
  ti_uid : Z;
  ti_gid : Z;
  ti_mtime : Z;
  ti_sparse : option (list (Z * Z));   (* None, or the list of sparse segments *)
  ti_pax_headers : gmap str str;
}.

Definition REGTYPE : N := 48.         (* b"0" *)
Definition AREGTYPE : N := 0.         (* b"\0" *)
Definition LNKTYPE : N := 49.         (* b"1" *)
Definition SYMTYPE : N := 50.         (* b"2" *)
Definition CHRTYPE : N := 51.         (* b"3" *)
Definition BLKTYPE : N := 52.         (* b"4" *)
Definition DIRTYPE : N := 53.         (* b"5" *)
Definition FIFOTYPE : N := 54.        (* b"6" *)
Definition CONTTYPE : N := 55.        (* b"7" *)
Definition GNUTYPE_SPARSE : N := 83.  (* b"S" *)

Definition isdir (info : TarInfo) : bool := N.eqb (ti_type info) DIRTYPE.
Definition islnk (info : TarInfo) : bool := N.eqb (ti_type info) LNKTYPE.
Definition issym (info : TarInfo) : bool := N.eqb (ti_type info) SYMTYPE.

(** ** [_guard.py] *)

Definition _REGULAR_TYPES : list N := [REGTYPE; AREGTYPE; CONTTYPE].
Definition _DIR_TYPE : list N := [DIRTYPE].
Definition _SYMLINK_TYPE : list N := [SYMTYPE].
Definition _HARDLINK_TYPE : list N := [LNKTYPE].
Definition _FORBIDDEN_TYPES : list N := [CHRTYPE; BLKTYPE; FIFOTYPE].
Definition _GNUTYPE_SPARSE : N := GNUTYPE_SPARSE.

(** [x in s] for a set of type codes *)
Definition type_in (x : N) (s : list N) : bool := existsb (N.eqb x) s.

Definition has_key (k : str) (d : gmap str str) : bool :=
  bool_decide (is_Some (d !! k)).

Definition _is_sparse (info : TarInfo) : bool :=
  match ti_sparse info with
  | Some (_ :: _) => true
  | _ =>
      if N.eqb (ti_type info) _GNUTYPE_SPARSE then true
      else
        let pax := ti_pax_headers info in
        has_key (u "GNU.sparse.major") pax || has_key (u "GNU.sparse.size") pax
  end.

(** [_type_names.get(info.type, "forbidden")] *)
Definition _type_names_get (ty : N) : string :=
  if N.eqb ty CHRTYPE then "character device"
  else if N.eqb ty BLKTYPE then "block device"
  else if N.eqb ty FIFOTYPE then "FIFO"
  else "forbidden".

Definition validate_entry_type (info : TarInfo)
    (symlink_policy : SymlinkPolicy.t) (hardlink_policy : HardlinkPolicy.t)
    (sparse_policy : SparsePolicy.t) : Result string :=
  (* sparse (check first: sparse entries may have REGTYPE) *)
  if _is_sparse info then
    match sparse_policy with
    | SparsePolicy.REJECT => Raise (UnsafeEntryTypeError "Sparse file entry rejected")
    | _ => Ok "extract"%string
    end
  (* regular files *)
  else if type_in (ti_type info) _REGULAR_TYPES then Ok "extract"%string
  (* directories *)
  else if type_in (ti_type info) _DIR_TYPE then Ok "extract"%string
  (* symlinks *)
  else if type_in (ti_type info) _SYMLINK_TYPE then
    match symlink_policy with
    | SymlinkPolicy.REJECT =>
        Raise (UnsafeEntryError "Symlink entry rejected (policy=REJECT)")
    | SymlinkPolicy.IGNORE => Ok "skip"%string
    | SymlinkPolicy.RESOLVE_INTERNAL => Ok "defer_symlink"%string
    end
  (* hardlinks *)
  else if type_in (ti_type info) _HARDLINK_TYPE then
    match hardlink_policy with
    | HardlinkPolicy.REJECT =>
        Raise (UnsafeEntryError "Hardlink entry rejected (policy=REJECT)")
    | HardlinkPolicy.INTERNAL => Ok "extract"%string
    end
  (* explicitly forbidden types *)
  else if type_in (ti_type info) _FORBIDDEN_TYPES then
    let label := _type_names_get (ti_type info) in
    Raise (UnsafeEntryTypeError ("Forbidden entry type (" ++ label ++ ")"))
  (* anything else: unknown type code *)
  else Raise (UnsafeEntryTypeError "Unrecognised TAR type code").

Definition _effective_name (info : TarInfo) : str := ti_name info.

Section Filename.
Context `{Unicode}.

Definition validate_filename (info : TarInfo) : Result str :=
  let name := _effective_name info in
  if bool_decide (name = []) || strip_is_empty name then
    Raise (UnsafeEntryError "Empty member filename")
  else if contains_char NUL name then
    Raise (UnsafeEntryError "Null byte in member filename")
  else if MAX_PATH <? len name then
    Raise (UnsafeEntryError "Filename length exceeds MAX_PATH")
  else Ok name.
End Filename.

Definition validate_pax_path (info : TarInfo) : Result (option str) :=
  match ti_pax_headers info !! u "path" with
  | None => Ok None
  | Some pax_path =>
      if contains_char NUL pax_path then
        Raise (UnsafeEntryError "Null byte in PAX path override")
      else if MAX_PATH <? len pax_path then
        Raise (UnsafeEntryError "PAX path override length exceeds MAX_PATH")
      else Ok (Some pax_path)
  end.

(** *** The file-count pre-scan

    The TAR reader is outside the package.  A [Scan] tells how it behaves on
    the archive at hand: whether [tarfile.open] raises, what each call of
    [tf.next()] gives (past the end of the list it returns [None]), and
    whether leaving the [with] block raises.  The file object keeps its
    position and the number of headers read from it. *)

Record Scan := {
  scan_open : option Exc;
  scan_next : list (Result TarInfo);
  scan_exit : option Exc;
}.

Record FileObj := {
  f_pos : Z;
  f_headers_read : nat;
}.

Definition read_header (f : FileObj) : FileObj :=
  {| f_pos := f_pos f + 512; f_headers_read := S (f_headers_read f) |}.

Definition seek (f : FileObj) (offset : Z) : FileObj :=
  {| f_pos := offset; f_headers_read := f_headers_read f |}.

(** An exception in flight, with its [__context__]. *)
Inductive Outcome :=
| Done
| Raised (exc : Exc) (context : option Exc).

(** The [while True] loop of [pre_scan_file_count]. *)
Fixpoint count_loop (nexts : list (Result TarInfo)) (count max_files : Z)
    (f : FileObj) : Outcome * FileObj :=
  match nexts with
  | [] => (Done, f)
  | Raise e :: _ => (Raised e None, f)
  | Ok member :: rest =>
      let f := read_header f in
      let count := count + 1 in
      if max_files <? count then (Raised FileCountExceededError None, f)
      else count_loop rest count max_files f
  end.

(** Leaving [with tarfile.open(...) as tf]: an exception raised on the way
    out has the one in flight as its context. *)
Definition with_exit (body : Outcome) (exit_raises : option Exc) : Outcome :=
  match exit_raises, body with
  | None, _ => body
  | Some e, Done => Raised e None
  | Some e, Raised e0 _ => Raised e (Some e0)
  end.

(** [isinstance(exc, (tarfile.TarError, EOFError, OSError))] *)
Definition is_reader_error (e : Exc) : bool :=
  match e with
  | TarError | EOFError | OSError => true
  | _ => false
  end.

Definition pre_scan_file_count (sc : Scan) (fileobj : FileObj) (max_files : Z)
  : Result unit * FileObj :=
  let '(outcome, fileobj) :=
    match scan_open sc with
    | Some e => (Raised e None, fileobj)
    | None =>
        let '(body, fileobj) := count_loop (scan_next sc) 0 max_files fileobj in
        (with_exit body (scan_exit sc), fileobj)
    end in
  let result :=
    match outcome with
    | Done => Ok tt
    | Raised exc context =>
        if is_reader_error exc then
          match context with
          | Some FileCountExceededError => Raise FileCountExceededError
          | _ => Raise MalformedArchiveError
          end
        else
          (* except FileCountExceededError: raise; anything else is not caught *)
          Raise exc
    end in
  (* finally *)
  (result, seek fileobj 0).

(** ** [_streamer.py] *)

(** Python floats as the monitor uses them: the true division of two ints
    and the comparison [>].  Both stay abstract, so that nothing proved
    below depends on how binary64 rounds. *)
Class PyFloat := {
  float : Type;
  int_truediv : Z -> Z -> float;
  float_gt : float -> float -> bool;
}.

(** [a / b] on ints *)
Definition py_truediv `{PyFloat} (a b : Z) : Result float :=
  if b =? 0 then Raise ZeroDivisionError else Ok (int_truediv a b).

Module ExtractionMonitor.
Section Monitor.
Context `{PyFloat}.

Record t := {
  _max_file_size : Z;
  _max_total_size : Z;
  _max_ratio : float;
  _archive_size : Z;
  _member_bytes : Z;
  _total_bytes : Z;
}.

Definition init (max_file_size max_total_size : Z) (max_ratio : float)
    (archive_size : Z) : t :=
  {| _max_file_size := max_file_size; _max_total_size := max_total_size;
     _max_ratio := max_ratio; _archive_size := archive_size;
     _member_bytes := 0; _total_bytes := 0 |}.

Definition set_counters (self : t) (member_bytes total_bytes : Z) : t :=
  {| _max_file_size := _max_file_size self;
     _max_total_size := _max_total_size self;
     _max_ratio := _max_ratio self; _archive_size := _archive_size self;
     _member_bytes := member_bytes; _total_bytes := total_bytes |}.

Definition reset_member (self : t) : t :=
  set_counters self 0 (_total_bytes self).

Definition _check_ratio (self : t) : Result unit :=
  if _archive_size self <=? 0 then Ok tt
  else
    ratio ← py_truediv (_total_bytes self) (_archive_size self);
    if float_gt ratio (_max_ratio self) then Raise CompressionRatioError
    else Ok tt.

(** The monitor is mutated before any limit is tested, so the new
    counters are returned whether or not the call raises. *)
Definition account (self : t) (n : Z) : Result unit * t :=
  let self := set_counters self (_member_bytes self + n) (_total_bytes self + n) in
  if _max_file_size self <? _member_bytes self then
    (Raise FileSizeExceededError, self)
  else if _max_total_size self <? _total_bytes self then
    (Raise TotalSizeExceededError, self)
  else (_check_ratio self, self).

Definition total_bytes (self : t) : Z := _total_bytes self.

(** The monitor after the calls [account(n)] for the [n] of [ns], in
    order, whatever each of them raised. *)
Definition after_calls (self : t) (ns : list Z) : t :=
  fold_left (fun m n => snd (account m n)) ns self.
End Monitor.
End ExtractionMonitor.

(** *** System calls *)

Definition set_files (w : World) (files : gmap Path (list Init.Byte.byte)) : World :=
  {| w_files := files; w_faults := w_faults w; w_rand := w_rand w;
     w_now := w_now w; w_trace := w_trace w |}.

Definition log (e : Event) (ok : bool) (w : World) : World :=
  {| w_files := w_files w; w_faults := w_faults w; w_rand := w_rand w;
     w_now := w_now w; w_trace := w_trace w ++ [(e, ok)] |}.

Definition next_fault (w : World) : bool * World :=
  match w_faults w with
  | [] => (false, w)
  | b :: rest =>
      (b, {| w_files := w_files w; w_faults := rest; w_rand := w_rand w;
             w_now := w_now w; w_trace := w_trace w |})
  end.

(** [random.randint(0, 999999)] *)
Definition randint (w : World) : N * World :=
  match w_rand w with
  | [] => (0%N, w)
  | n :: rest =>
      ((n mod 1000000)%N,
       {| w_files := w_files w; w_faults := w_faults w; w_rand := rest;
          w_now := w_now w; w_trace := w_trace w |})
  end.

(** A guarded system call: it fails with [OSError] and changes nothing, or
    succeeds and has its effect on the files. *)
Definition syscall (e : Event)
    (effect : gmap Path (list Init.Byte.byte) -> gmap Path (list Init.Byte.byte))
    (w : World) : Result unit * World :=
  let '(fault, w) := next_fault w in
  if fault then (Raise OSError, log e false w)
  else (Ok tt, log e true (set_files w (effect (w_files w)))).

Definition mkdir_parents (p : Path) := syscall (EvMkdir p) id.
Definition touch (p : Path) :=
  syscall (EvTouch p) (fun fs => match fs !! p with Some _ => fs | None => <[p := []]> fs end).
Definition open_wb (p : Path) := syscall (EvOpen p) (fun fs => <[p := []]> fs).
Definition write (p : Path) (chunk : list Init.Byte.byte) :=
  syscall (EvWrite p (len chunk)) (fun fs => <[p := default [] (fs !! p) ++ chunk]> fs).
Definition rename (src dst : Path) :=
  syscall (EvRename src dst)
    (fun fs => match fs !! src with
               | Some c => <[dst := c]> (delete src fs)
               | None => fs
               end).
Definition unlink_missing_ok (p : Path) := syscall (EvUnlink p) (fun fs => delete p fs).
Definition os_link (target dst : Path) :=
  syscall (EvLink target dst)
    (fun fs => match fs !! target with Some c => <[dst := c]> fs | None => fs end).
Definition os_symlink (target : str) (dst : Path) := syscall (EvSymlink target dst) id.
Definition os_chown (p : Path) (uid gid : Z) := syscall (EvChown p uid gid) id.
Definition os_chmod (p : Path) (mode : Z) := syscall (EvChmod p mode) id.
Definition os_utime (p : Path) (mtime : Z) := syscall (EvUtime p mtime) id.

(** [with contextlib.suppress(OSError): call] *)
Definition suppress_OSError (call : World -> Result unit * World) (w : World)
  : Result unit * World :=
  match call w with
  | (Raise OSError, w) => (Ok tt, w)
  | r => r
  end.

(** *** Formatting the temporary suffix *)

Fixpoint digits (fuel : nat) (n : N) (acc : str) : str :=
  match fuel with
  | O => acc
  | S fuel' =>
      let acc := (48 + n mod 10)%N :: acc in
      if (n / 10 =? 0)%N then acc else digits fuel' (n / 10)%N acc
  end.

(** [f"{n}"] *)
Definition decimal (n : N) : str := digits (S (N.to_nat (N.log2 n))) n [].

(** [f"{n:06d}"] *)
Definition decimal06 (n : N) : str :=
  let d := decimal n in List.repeat 48%N (6 - length d)%nat ++ d.

(** *** The TAR reader during extraction

    [tf_extractfile] tells what [tf.extractfile(info)] gives: an exception,
    [None], or a stream, given as the results of its successive [read]
    calls (past the end of the list [read] returns [b""]). *)
Record TarFile := {
  tf_members : list TarInfo;
  tf_extractfile : TarInfo -> Result (option (list (Result (list Init.Byte.byte))));
}.

Definition _CHUNK_SIZE : Z := 65536.

Section Streamer.
Context `{PyFloat}.

(** The [while True] copy loop. *)
Fixpoint copy_loop (reads : list (Result (list Init.Byte.byte))) (temp_path : Path)
    (w : World) (monitor : ExtractionMonitor.t)
  : Result unit * World * ExtractionMonitor.t :=
  match reads with
  | [] => (Ok tt, w, monitor)
  | Raise e :: _ => (Raise e, w, monitor)
  | Ok chunk :: rest =>
      if bool_decide (chunk = []) then (Ok tt, w, monitor)
      else
        match write temp_path chunk w with
        | (Raise e, w) => (Raise e, w, monitor)
        | (Ok _, w) =>
            match ExtractionMonitor.account monitor (len chunk) with
            | (Raise e, monitor) => (Raise e, w, monitor)
            | (Ok _, monitor) => copy_loop rest temp_path w monitor
            end
        end
  end.

Definition temp_suffix (proc : Process) (rnd : N) : str :=
  u ".safetar_tmp_" ++ decimal (pid proc) ++ u "_" ++ decimal06 rnd.

(** The body of the [try] block. *)
Definition streaming_body (tf : TarFile) (info : TarInfo) (dest_path temp_path : Path)
    (w : World) (monitor : ExtractionMonitor.t)
  : Result unit * World * ExtractionMonitor.t :=
  (* Ensure parent directory exists. *)
  match mkdir_parents (path_parent temp_path) w with
  | (Raise e, w) => (Raise e, w, monitor)
  | (Ok _, w) =>
      match tf_extractfile tf info with
      | Raise e => (Raise e, w, monitor)
      | Ok None =>
          (* No data to extract (zero-length or special). *)
          match touch temp_path w with
          | (Raise e, w) => (Raise e, w, monitor)
          | (Ok _, w) =>
              let '(r, w) := rename temp_path dest_path w in (r, w, monitor)
          end
      | Ok (Some source) =>
          match open_wb temp_path w with
          | (Raise e, w) => (Raise e, w, monitor)
          | (Ok _, w) =>
              match copy_loop source temp_path w monitor with
              | (Raise e, w, monitor) => (Raise e, w, monitor)
              | (Ok _, w, monitor) =>
                  (* Success: atomic rename. *)
                  let '(r, w) := rename temp_path dest_path w in (r, w, monitor)
              end
          end
      end
  end.

Definition temp_path_of (proc : Process) (rnd : N) (dest_path : Path) : Path :=
  path_with_name dest_path (path_name dest_path ++ temp_suffix proc rnd).

Definition extract_member_streaming (proc : Process) (tf : TarFile) (info : TarInfo)
    (dest_path : Path) (w : World) (monitor : ExtractionMonitor.t)
  : Result unit * World * ExtractionMonitor.t :=
  let monitor := ExtractionMonitor.reset_member monitor in
  (* Prepare temp path. *)
  let '(rnd, w) := randint w in
  let temp_path := temp_path_of proc rnd dest_path in
  match streaming_body tf info dest_path temp_path w monitor with
  | (Ok _, w, monitor) => (Ok tt, w, monitor)
  | (Raise exc, w, monitor) =>
      match exc with
      | TarError | EOFError =>
          (* Truncated or structurally corrupt stream. *)
          let '(_, w) := suppress_OSError (unlink_missing_ok temp_path) w in
          (Raise MalformedArchiveError, w, monitor)
      | _ =>
          (* Cleanup temp file on any other failure. *)
          let '(_, w) := suppress_OSError (unlink_missing_ok temp_path) w in
          (Raise exc, w, monitor)
      end
  end.
End Streamer.

(** *** Seekable input and the archive hash
    ([ensure_seekable] of [_guard.py], [compute_archive_hash] of
    [_streamer.py])

    A seekable binary file is its content and its position; [read(n)]
    gives the next [n] bytes, fewer at the end, and none past it.  A stream
    that cannot seek is given by the results of its successive [read]
    calls, as the content stream of a member is.  Of [hashlib] only this
    is used: the digest of a hash object is a function of the bytes it was
    fed, in order. *)

Record BinaryFile := {
  bf_content : list Init.Byte.byte;
  bf_pos : nat;
}.

Definition bf_tell (f : BinaryFile) : nat := bf_pos f.

Definition bf_seek (f : BinaryFile) (pos : nat) : BinaryFile :=
  {| bf_content := bf_content f; bf_pos := pos |}.

Definition bf_read (f : BinaryFile) (n : nat) : list Init.Byte.byte * BinaryFile :=
  let chunk := take n (drop (bf_pos f) (bf_content f)) in
  (chunk, {| bf_content := bf_content f; bf_pos := bf_pos f + length chunk |}).

Class Hashlib := {
  sha256_hexdigest : list Init.Byte.byte -> str;
}.

(** The [while True] loop of [compute_archive_hash]; [h] is what the hash
    object was fed so far.  Every turn but the last moves the position
    forward, so [fuel] turns are enough when [fuel] exceeds the number of
    bytes left. *)
Fixpoint hash_loop (fuel : nat) (f : BinaryFile) (h : list Init.Byte.byte)
  : list Init.Byte.byte * BinaryFile :=
  match fuel with
  | O => (h, f)
  | S fuel' =>
      let '(chunk, f) := bf_read f (Z.to_nat 65536) in
      if bool_decide (chunk = []) then (h, f)
      else hash_loop fuel' f (h ++ chunk)
  end.

Definition compute_archive_hash `{Hashlib} (fileobj : BinaryFile) : str * BinaryFile :=
  let pos := bf_tell fileobj in
  let '(h, fileobj) := hash_loop (S (length (bf_content fileobj))) fileobj [] in
  let fileobj := bf_seek fileobj pos in
  (take 16 (sha256_hexdigest h), fileobj).

(** The [file] argument: a path, a seekable file object, or a stream. *)
Inductive FileArg :=
| FromPath (p : Path)
| FromSeekable (f : BinaryFile)
| FromStream (reads : list (Result (list Init.Byte.byte))).

(** The buffering loop of [ensure_seekable]. *)
Fixpoint spool_loop (reads : list (Result (list Init.Byte.byte)))
    (spool : list Init.Byte.byte) (total max_total_size : Z)
  : Result (list Init.Byte.byte) :=
  match reads with
  | [] => Ok spool
  | Raise e :: _ => Raise e
  | Ok chunk :: rest =>
      if bool_decide (chunk = []) then Ok spool
      else
        let total := total + len chunk in
        if max_total_size <? total then Raise TotalSizeExceededError
        else spool_loop rest (spool ++ chunk) total max_total_size
  end.

Definition ensure_seekable (w : World) (file : FileArg) (max_total_size : Z)
  : Result (BinaryFile * bool) :=
  match file with
  | FromPath p =>
      (* open(file, "rb") *)
      match w_files w !! p with
      | Some content => Ok ({| bf_content := content; bf_pos := 0 |}, true)
      | None => Raise OSError
      end
  | FromSeekable fobj => Ok (fobj, false)
  | FromStream reads =>
      spool ← spool_loop reads [] 0 max_total_size;
      (* spool.seek(0) *)
      Ok ({| bf_content := spool; bf_pos := 0 |}, true)
  end.

(** ** [_core.py]: the orchestrator *)

(** The mutable objects [extractall] creates and hands to [_extract_one],
    together with the world. *)
Record RunState `{PyFloat} := {
  world : World;
  monitor : ExtractionMonitor.t;
  deferred_symlinks : list (Path * str);
  deferred_dirs : list (TarInfo * Path);
  extracted_paths : gset Path;
}.

Definition _event_type_for (info : TarInfo) : string :=
  if issym info then "symlink_violation"
  else if islnk info then "hardlink_violation"
  else if isdir info then "directory_violation"
  else "security_violation".

Module SafeTarFile.
Section Core.
Context `{Unicode} `{PathOracle} `{PyFloat}.

(** [_on_security_event] is [None] or a callback; of the callback only
    whether it returns normally matters here. *)
Record t := {
  _max_file_size : Z;
  _max_total_size : Z;
  _max_ratio : float;
  _symlink_policy : SymlinkPolicy.t;
  _hardlink_policy : HardlinkPolicy.t;
  _sparse_policy : SparsePolicy.t;
  _strip_special_bits : bool;
  _strip_write_bits : bool;
  _preserve_ownership : bool;
  _clamp_timestamps : bool;
  _on_security_event : option bool;
  _archive_size : Z;
  _tf : TarFile;
}.

Definition set_world (st : RunState) (w : World) : RunState :=
  {| world := w; monitor := monitor st;
     deferred_symlinks := deferred_symlinks st;
     deferred_dirs := deferred_dirs st;
     extracted_paths := extracted_paths st |}.

Definition set_monitor (st : RunState) (m : ExtractionMonitor.t) : RunState :=
  {| world := world st; monitor := m;
     deferred_symlinks := deferred_symlinks st;
     deferred_dirs := deferred_dirs st;
     extracted_paths := extracted_paths st |}.

Definition append_symlink (st : RunState) (entry : Path * str) : RunState :=
  {| world := world st; monitor := monitor st;
     deferred_symlinks := deferred_symlinks st ++ [entry];
     deferred_dirs := deferred_dirs st;
     extracted_paths := extracted_paths st |}.

Definition append_dir (st : RunState) (entry : TarInfo * Path) : RunState :=
  {| world := world st; monitor := monitor st;
     deferred_symlinks := deferred_symlinks st;
     deferred_dirs := deferred_dirs st ++ [entry];
     extracted_paths := extracted_paths st |}.

Definition add_extracted (st : RunState) (p : Path) : RunState :=
  {| world := world st; monitor := monitor st;
     deferred_symlinks := deferred_symlinks st;
     deferred_dirs := deferred_dirs st;
     extracted_paths := extracted_paths st ∪ {[p]} |}.

(** A system call made on the world of the run. *)
Definition on_world (call : World -> Result unit * World) (st : RunState)
  : Result unit * RunState :=
  let '(r, w) := call (world st) in (r, set_world st w).

(** Every call is wrapped in [contextlib.suppress(OSError)], so the
    method never raises. *)
Definition _apply_metadata (self : t) (proc : Process) (info : TarInfo)
    (dest_path : Path) (w : World) : World :=
  (* Ownership first. *)
  let w :=
    if _preserve_ownership self then
      let '(uid, gid) := sanitise_ownership proc (ti_uid info) (ti_gid info) true in
      snd (suppress_OSError (os_chown dest_path uid gid) w)
    else w in
  (* Permissions after ownership. *)
  let w :=
    match ti_mode info with
    | Some mode =>
        let safe_mode :=
          sanitise_mode mode (_strip_special_bits self) (_strip_write_bits self) in
        snd (suppress_OSError (os_chmod dest_path safe_mode) w)
    | None => w
    end in
  (* Timestamps. *)
  let mtime := sanitise_mtime w (ti_mtime info) (_clamp_timestamps self) in
  snd (suppress_OSError (os_utime dest_path mtime) w).

Definition _fire_event (self : t) (info : TarInfo) (w : World) : World :=
  match _on_security_event self with
  | None => w
  | Some returns => log (EvCallback (_event_type_for info)) returns w
  end.

Definition _extract_one_inner (self : t) (proc : Process) (info : TarInfo)
    (base_dir : Path) (st : RunState) : Result unit * RunState :=
  (* ---- Guard phase ---- *)
  match validate_entry_type info (_symlink_policy self) (_hardlink_policy self)
          (_sparse_policy self) with
  | Raise e => (Raise e, st)
  | Ok disposition =>
  if String.eqb disposition "skip" then (Ok tt, st) else
  match validate_filename info with
  | Raise e => (Raise e, st)
  | Ok effective_name =>
  match validate_pax_path info with
  | Raise e => (Raise e, st)
  | Ok pax_path =>
  (* ---- Sandbox phase: path resolution ---- *)
  match resolve_member_path (world st) base_dir effective_name with
  | Raise e => (Raise e, st)
  | Ok dest_path =>
  match
    match pax_path with
    | Some pax =>
        if negb (bool_decide (pax = effective_name))
        then _ ← resolve_member_path (world st) base_dir pax; Ok tt
        else Ok tt
    | None => Ok tt
    end
  with
  | Raise e => (Raise e, st)
  | Ok _ =>
  (* ---- Sandbox phase: type-specific handling ---- *)
  if String.eqb disposition "defer_symlink" then
    (Ok tt, append_symlink st (dest_path, ti_linkname info))
  else if isdir info then
    match on_world (mkdir_parents dest_path) st with
    | (Raise e, st) => (Raise e, st)
    | (Ok _, st) =>
        let st := append_dir st (info, dest_path) in
        (Ok tt, add_extracted st dest_path)
    end
  else if islnk info then
    match verify_hardlink_target (world st) base_dir dest_path (ti_linkname info)
            (extracted_paths st) with
    | Raise e => (Raise e, st)
    | Ok target_path =>
        match on_world (mkdir_parents (path_parent dest_path)) st with
        | (Raise e, st) => (Raise e, st)
        | (Ok _, st) =>
            match on_world (os_link target_path dest_path) st with
            | (Raise e, st) => (Raise e, st)
            | (Ok _, st) => (Ok tt, add_extracted st dest_path)
            end
        end
    end
  else
    (* ---- Streamer phase: regular file extraction ---- *)
    match extract_member_streaming proc (_tf self) info dest_path
            (world st) (monitor st) with
    | (Raise e, w, m) => (Raise e, set_monitor (set_world st w) m)
    | (Ok _, w, m) =>
        let st := set_monitor (set_world st w) m in
        let st := set_world st (_apply_metadata self proc info dest_path (world st)) in
        (Ok tt, add_extracted st dest_path)
    end
  end end end end end.

(** [EvMember] is logged when the member has been processed without an
    exception. *)
Definition _extract_one (self : t) (proc : Process) (info : TarInfo)
    (base_dir : Path) (st : RunState) : Result unit * RunState :=
  match _extract_one_inner self proc info base_dir st with
  | (Ok _, st) => (Ok tt, set_world st (log (EvMember (ti_name info)) true (world st)))
  | (Raise e, st) =>
      if is_SafetarError e
      then (Raise e, set_world st (_fire_event self info (world st)))
      else (Raise e, st)
  end.

(** [for info in infos: self._extract_one(...)] *)
Fixpoint extract_members (self : t) (proc : Process) (infos : list TarInfo)
    (base_dir : Path) (st : RunState) : Result unit * RunState :=
  match infos with
  | [] => (Ok tt, st)
  | info :: rest =>
      match _extract_one self proc info base_dir st with
      | (Raise e, st) => (Raise e, st)
      | (Ok _, st) => extract_members self proc rest base_dir st
      end
  end.

(** [for sym_path, sym_target in deferred_symlinks: ...] *)
Fixpoint create_symlinks (base_dir : Path) (deferred : list (Path * str))
    (w : World) : Result unit * World :=
  match deferred with
  | [] => (Ok tt, w)
  | (sym_path, sym_target) :: rest =>
      match verify_symlink_chain w base_dir sym_path sym_target 10 with
      | Raise e => (Raise e, w)
      | Ok _ =>
          match mkdir_parents (path_parent sym_path) w with
          | (Raise e, w) => (Raise e, w)
          | (Ok _, w) =>
              match os_symlink sym_target sym_path w with
              | (Raise e, w) => (Raise e, w)
              | (Ok _, w) => create_symlinks base_dir rest w
              end
          end
      end
  end.

(** [for dir_info, dir_path in deferred_dirs: self._apply_metadata(...)] *)
Fixpoint apply_deferred_dirs (self : t) (proc : Process)
    (deferred : list (TarInfo * Path)) (w : World) : World :=
  match deferred with
  | [] => w
  | (dir_info, dir_path) :: rest =>
      let w := log (EvDirMetadata dir_path) true w in
      apply_deferred_dirs self proc rest
        (_apply_metadata self proc dir_info dir_path w)
  end.

(** [self._tf.getmember(name)]: the name is taken without its trailing
    slashes, and the last member that bears it is returned. *)
Definition getmember (tf : TarFile) (name : str) : Result TarInfo :=
  match List.find (fun i => str_eqb (rstrip SLASH name) (ti_name i))
          (rev (tf_members tf)) with
  | Some info => Ok info
  | None => Raise KeyError
  end.

(** The resolution of the [members] argument. *)
Fixpoint resolve_members (tf : TarFile) (members : list (str + TarInfo))
  : Result (list TarInfo) :=
  match members with
  | [] => Ok []
  | m :: rest =>
      info ← match m with inl name => getmember tf name | inr info => Ok info end;
      infos ← resolve_members tf rest;
      Ok (info :: infos)
  end.

Definition extractall (self : t) (proc : Process) (path : option Path)
    (members : option (list (str + TarInfo))) (w : World) : Result unit * World :=
  match path with
  | None => (Raise TypeError, w)
  | Some path =>
  match realpath w path with
  | None => (Raise OSError, w)
  | Some base_dir =>
  match mkdir_parents base_dir w with
  | (Raise e, w) => (Raise e, w)
  | (Ok _, w) =>
  (* Resolve member list. *)
  match
    match members with
    | Some members => resolve_members (_tf self) members
    | None => Ok (tf_members (_tf self))
    end
  with
  | Raise e => (Raise e, w)
  | Ok infos =>
  (* Set up monitors. *)
  let st :=
    {| world := w;
       monitor := ExtractionMonitor.init (_max_file_size self) (_max_total_size self)
                    (_max_ratio self) (_archive_size self);
       deferred_symlinks := []; deferred_dirs := []; extracted_paths := ∅ |} in
  match extract_members self proc infos base_dir st with
  | (Raise e, st) => (Raise e, world st)
  | (Ok _, st) =>
      (* deferred symlink creation (TOCTOU defence) *)
      match create_symlinks base_dir (deferred_symlinks st) (world st) with
      | (Raise e, w) => (Raise e, w)
      | (Ok _, w) =>
          (* deferred directory metadata (after all files extracted) *)
          (Ok tt, apply_deferred_dirs self proc (deferred_dirs st) w)
      end
  end end end end end.

(** [extract]: a name is looked up first; the member then goes through
    [extractall] on its own. *)
Definition extract (self : t) (proc : Process) (member : str + TarInfo)
    (path : option Path) (w : World) : Result unit * World :=
  match
    match member with
    | inl name => getmember (_tf self) name
    | inr info => Ok info
    end
  with
  | Raise e => (Raise e, w)
  | Ok member => extractall self proc path (Some [inr member]) w
  end.
End Core.
End SafeTarFile.

(** ** A plain environment, to run the definitions on concrete inputs

    [AsciiUnicode] agrees with Python on ASCII text, which NFC leaves
    unchanged.  [PlainDisk] is a file system without symbolic links, where a
    path resolves to itself and exists when a file is stored under it.
    [ExactFloat] divides exactly; on the small values used below binary64
    gives the same comparisons. *)

Definition ascii_isalpha (c : char) : bool :=
  ((65 <=? c) && (c <=? 90) || (97 <=? c) && (c <=? 122))%N.

Definition ascii_isspace (c : char) : bool :=
  ((9 <=? c) && (c <=? 13) || (28 <=? c) && (c <=? 32))%N.

Definition AsciiUnicode : Unicode :=
  {| normalize_NFC := fun s => s; isalpha := ascii_isalpha; isspace := ascii_isspace |}.

Definition PlainDisk : PathOracle :=
  {| realpath := fun _ p => Some p;
     path_exists := fun w p => bool_decide (is_Some (w_files w !! p));
     path_is_symlink := fun _ _ => false;
     os_readlink := fun _ _ => None;
     resolve_loops := fun _ _ => false;
     is_symlink_fails := fun _ _ => false |}.

Definition ExactFloat : PyFloat :=
  {| float := QArith_base.Q;
     int_truediv := fun a b =>
       QArith_base.Qdiv (QArith_base.inject_Z a) (QArith_base.inject_Z b);
     float_gt := fun x y => negb (QArith_base.Qle_bool x y) |}.

Definition empty_world : World :=
  {| w_files := ∅; w_faults := []; w_rand := []; w_now := 0; w_trace := [] |}.


(** A header with the given name, type and link target, and nothing else
    of note. *)
Definition plain_info (name : str) (type : N) (linkname : str) : TarInfo :=
  {| ti_name := name; ti_type := type; ti_linkname := linkname;
     ti_mode := Some 420; ti_uid := 0; ti_gid := 0; ti_mtime := 0;
     ti_sparse := None; ti_pax_headers := ∅ |}.

(** [/tmp/out] *)
Definition tmp_out : Path := [u "tmp"; u "out"].

(** A disk on which [/tmp/out/loop] is a symbolic link to itself.  With
    [raising], [Path.resolve()] raises [RuntimeError] on it, as Python 3.10
    to 3.12 do; without, it leaves the loop unresolved. *)
Definition loop_link : Path := tmp_out ++ [u "loop"].

Definition LoopDisk (raising : bool) : PathOracle :=
  {| realpath := fun _ p => Some p;
     path_exists := fun w p => bool_decide (is_Some (w_files w !! p));
     path_is_symlink := fun _ p => bool_decide (p = loop_link);
     os_readlink := fun _ p => if bool_decide (p = loop_link) then Some (u "loop") else None;
     resolve_loops := fun _ p => raising && bool_decide (p = loop_link);
     is_symlink_fails := fun _ _ => false |}.

(** A base directory of sixteen components of 254 characters each:
    [len(str(long_base)) = 4080]. *)
Definition long_base : Path := List.repeat (List.repeat 97%N 254) 16.

(** The events of the log, by the loop of [extractall] that makes them.
    The first loop processes the members and creates no symbolic link and
    applies no deferred directory metadata; the second only makes parent
    directories and symbolic links; the third only applies metadata. *)
Definition member_phase (e : Event) : Prop :=
  match e with
  | EvSymlink _ _ | EvDirMetadata _ => False
  | _ => True
  end.

Definition symlink_phase (e : Event) : Prop :=
  match e with
  | EvMkdir _ | EvSymlink _ _ => True
  | _ => False
  end.

Definition dir_phase (e : Event) : Prop :=
  match e with
  | EvDirMetadata _ | EvChown _ _ _ | EvChmod _ _ | EvUtime _ _ => True
  | _ => False
  end.

(** The events made while one member is handled, before [_extract_one]
    returns. *)
Definition inner_event (e : Event) : Prop :=
  match e with
  | EvMember _ | EvSymlink _ _ | EvDirMetadata _ => False
  | _ => True
  end.

(** The event writes to the destination [dest], to its parent directory
    or to a temporary sibling of it. *)
Definition targets (proc : Process) (dest : Path) (e : Event) : Prop :=
  match e with
  | EvMember _ | EvCallback _ => True
  | EvMkdir p => p = dest \/ p = path_parent dest
  | EvTouch p | EvOpen p | EvWrite p _ | EvUnlink p =>
      exists rnd, p = temp_path_of proc rnd dest
  | EvRename src dst => dst = dest /\ exists rnd, src = temp_path_of proc rnd dest
  | EvLink _ dst | EvSymlink _ dst => dst = dest
  | EvChown p _ _ | EvChmod p _ | EvUtime p _ | EvDirMetadata p => p = dest
  end.

(** The names of the members processed, in the order of the log. *)
Definition members_done (t : list (Event * bool)) : list str :=
  omap (fun x => match x.1 with EvMember name => Some name | _ => None end) t.

(** The targets of the symbolic links created, in the order of the log. *)
Definition symlinks_created (t : list (Event * bool)) : list str :=
  omap (fun x => match x with (EvSymlink target _, true) => Some target | _ => None end) t.

Definition is_ok {A} (r : Result A) : bool :=
  match r with Ok _ => true | Raise _ => false end.

Section RunVocabulary.
Context `{Unicode} `{PathOracle} `{PyFloat}.

(** The Guard defers the member: a symbolic link under [RESOLVE_INTERNAL]. *)
Definition is_deferred (self : SafeTarFile.t) (info : TarInfo) : bool :=
  match validate_entry_type info (SafeTarFile._symlink_policy self)
          (SafeTarFile._hardlink_policy self) (SafeTarFile._sparse_policy self) with
  | Ok disposition => String.eqb disposition "defer_symlink"
  | Raise _ => false
  end.

(** [dest] is what [resolve_member_path] returned for [name] in some state
    of the world, so it passed the containment test there. *)
Definition checked_name (base_dir : Path) (name : str) (dest : Path) : Prop :=
  exists w, resolve_member_path w base_dir name = Ok dest.

Definition checked (base_dir : Path) (dest : Path) : Prop :=
  exists name, checked_name base_dir name dest.

(** Apart from the ghost marks, the event targets a path that
    [resolve_member_path] returned. *)
Definition checked_event (proc : Process) (base_dir : Path) (e : Event) : Prop :=
  match e with
  | EvMember _ | EvCallback _ => True
  | _ => exists dest, checked base_dir dest /\ targets proc dest e
  end.


(** The exceptions that [Path.resolve()], [Path.is_symlink()] and
    [os.readlink] raise. *)
Definition is_path_error (e : Exc) : Prop :=
  e = OSError \/ e = RuntimeError \/ e = ValueError.

(** One hop along a chain of symbolic links: the target of the link at
    [p], taken relative to the directory of [p] and resolved. *)
Definition chain_hop (w : World) (p : Path) : Result Path :=
  match os_readlink w p with
  | Some link_target => resolve w (path_join (path_parent p) link_target)
  | None => Raise OSError
  end.

(** [rest] is the chain of links that starts at [current]: each path but
    the last is a symbolic link that leads to the next, and the last is
    none. *)
Fixpoint is_chain (w : World) (current : Path) (rest : list Path) : Prop :=
  match rest with
  | [] => is_symlink w current = Ok false
  | next :: rest' =>
      is_symlink w current = Ok true
      /\ chain_hop w current = Ok next
      /\ is_chain w next rest'
  end.

(** The calls on files and directories made while one member is handled. *)
Definition file_call (e : Event) : Prop :=
  match e with
  | EvMkdir _ | EvTouch _ | EvOpen _ | EvWrite _ _ | EvRename _ _
  | EvUnlink _ | EvLink _ _ => True
  | _ => False
  end.

(** The calls [_apply_metadata] can make for the header [info]: a chown
    with the ids of the header, when ownership is preserved; a chmod with
    the sanitised mode of the header; a utime. *)
Definition metadata_call (self : SafeTarFile.t) (info : TarInfo) (e : Event) : Prop :=
  match e with
  | EvChown _ uid gid =>
      SafeTarFile._preserve_ownership self = true
      /\ uid = ti_uid info /\ gid = ti_gid info
  | EvChmod _ mode =>
      exists m, ti_mode info = Some m
                /\ mode = sanitise_mode m (SafeTarFile._strip_special_bits self)
                            (SafeTarFile._strip_write_bits self)
  | EvUtime _ _ => True
  | _ => False
  end.

Definition not_metadata (e : Event) : Prop :=
  match e with
  | EvChown _ _ _ | EvChmod _ _ | EvUtime _ _ => False
  | _ => True
  end.

(** What the configuration promises of every chown and chmod. *)
Definition sanitised_call (self : SafeTarFile.t) (e : Event) : Prop :=
  match e with
  | EvChown _ _ _ => SafeTarFile._preserve_ownership self = true
  | EvChmod _ mode =>
      (SafeTarFile._strip_special_bits self = true ->
       Z.land mode S_ISUID = 0 /\ Z.land mode S_ISGID = 0 /\ Z.land mode S_ISVTX = 0)
      /\ (SafeTarFile._strip_write_bits self = true ->
          Z.land mode S_IWUSR = 0 /\ Z.land mode S_IWGRP = 0 /\ Z.land mode S_IWOTH = 0)
  | _ => True
  end.

Definition not_callback (e : Event) : Prop :=
  match e with EvCallback _ => False | _ => True end.

Definition not_member (e : Event) : Prop :=
  match e with EvMember _ => False | _ => True end.

(** In the piece [tr] of the log there is no call of the callback, or
    there is one, it is the last event of [tr], and the run ends with a
    [SafetarError]. *)
Definition callback_at_end (r : Result unit) (tr : list (Event * bool)) : Prop :=
  Forall (fun x => not_callback x.1) tr
  \/ exists e tr0 ty ok,
       r = Raise e /\ is_SafetarError e = true
       /\ tr = tr0 ++ [(EvCallback ty, ok)]
       /\ Forall (fun x => not_callback x.1) tr0.

(** The state in which [extractall] enters its first loop. *)
Definition initial_state (self : SafeTarFile.t) (w : World) : RunState :=
  {| world := w;
     monitor := ExtractionMonitor.init (SafeTarFile._max_file_size self)
                  (SafeTarFile._max_total_size self) (SafeTarFile._max_ratio self)
                  (SafeTarFile._archive_size self);
     deferred_symlinks := []; deferred_dirs := []; extracted_paths := ∅ |}.

(** The members [extractall] works on. *)
Definition selected (self : SafeTarFile.t) (members : option (list (str + TarInfo)))
  : Result (list TarInfo) :=
  match members with
  | Some members => SafeTarFile.resolve_members (SafeTarFile._tf self) members
  | None => Ok (tf_members (SafeTarFile._tf self))
  end.




End RunVocabulary.


(** ** The classification table of the specification

    Written from the words of the specification (section 4.2), to be
    compared with [validate_entry_type]. *)

Inductive EntryKind :=
| RegularFile | Directory | Symlink | Hardlink
| CharDevice | BlockDevice | Fifo | OtherType.

Definition spec_kind (type : N) : EntryKind :=
  if decide (type = REGTYPE \/ type = AREGTYPE \/ type = CONTTYPE) then RegularFile
  else if decide (type = DIRTYPE) then Directory
  else if decide (type = SYMTYPE) then Symlink
  else if decide (type = LNKTYPE) then Hardlink
  else if decide (type = CHRTYPE) then CharDevice
  else if decide (type = BLKTYPE) then BlockDevice
  else if decide (type = FIFOTYPE) then Fifo
  else OtherType.

(** Sparse by the reader's attribute, by the GNU [S] type byte, or by the
    PAX keys [GNU.sparse.major] or [GNU.sparse.size]. *)
Definition spec_sparse (info : TarInfo) : bool :=
  match ti_sparse info with Some (_ :: _) => true | _ => false end
  || bool_decide (ti_type info = 83%N)
  || bool_decide (is_Some (ti_pax_headers info !! u "GNU.sparse.major"))
  || bool_decide (is_Some (ti_pax_headers info !! u "GNU.sparse.size")).

Definition spec_disposition (info : TarInfo)
    (symlink_policy : SymlinkPolicy.t) (hardlink_policy : HardlinkPolicy.t)
    (sparse_policy : SparsePolicy.t) : Result string :=
  if spec_sparse info then
    match sparse_policy with
    | SparsePolicy.REJECT => Raise (UnsafeEntryTypeError "Sparse file entry rejected")
    | SparsePolicy.MATERIALISE => Ok "extract"%string
    end
  else
    match spec_kind (ti_type info) with
    | RegularFile | Directory => Ok "extract"%string
    | Symlink =>
        match symlink_policy with
        | SymlinkPolicy.REJECT =>
            Raise (UnsafeEntryError "Symlink entry rejected (policy=REJECT)")
        | SymlinkPolicy.IGNORE => Ok "skip"%string
        | SymlinkPolicy.RESOLVE_INTERNAL => Ok "defer_symlink"%string
        end
    | Hardlink =>
        match hardlink_policy with
        | HardlinkPolicy.REJECT =>
            Raise (UnsafeEntryError "Hardlink entry rejected (policy=REJECT)")
        | HardlinkPolicy.INTERNAL => Ok "extract"%string
        end
    | CharDevice => Raise (UnsafeEntryTypeError "Forbidden entry type (character device)")
    | BlockDevice => Raise (UnsafeEntryTypeError "Forbidden entry type (block device)")
    | Fifo => Raise (UnsafeEntryTypeError "Forbidden entry type (FIFO)")
    | OtherType => Raise (UnsafeEntryTypeError "Unrecognised TAR type code")
    end.

(** A process started from a set-uid root executable by user 1000. *)
Definition setuid_process : Process :=
  {| ruid := 1000; euid := 0; rgid := 1000; egid := 0; pid := 4242 |}.

(** ** Vocabulary for the statements about runs *)


(** From [w] to [w'] the log grew by events that all satisfy [P]. *)
Definition extends (P : Event -> Prop) (w w' : World) : Prop :=
  exists t, w_trace w' = w_trace w ++ t /\ Forall (fun x => P x.1) t.


Definition one_chunk_tar : TarFile :=
  {| tf_members := [plain_info (u "data.bin") REGTYPE []];
     tf_extractfile := fun _ => Ok (Some [Ok [Init.Byte.x41; Init.Byte.x42]]) |}.

(** An ordinary process of user 1000. *)
Definition user_process : Process :=
  {| ruid := 1000; euid := 1000; rgid := 1000; egid := 1000; pid := 4242 |}.

(** A monitor with the default limits of the package, for an archive of
    10240 bytes. *)
Definition default_monitor : @ExtractionMonitor.t ExactFloat :=
  @ExtractionMonitor.init ExactFloat (2 ^ 30) (5 * 2 ^ 30) (QArith_base.inject_Z 200) 10240.

(** The package defaults around a reader, with the given link policies. *)
Definition config (tf : TarFile) (symlink_policy : SymlinkPolicy.t)
    (hardlink_policy : HardlinkPolicy.t) : @SafeTarFile.t ExactFloat :=
  {| SafeTarFile._max_file_size := 2 ^ 30;
     SafeTarFile._max_total_size := 5 * 2 ^ 30;
     SafeTarFile._max_ratio := (QArith_base.inject_Z 200 : @float ExactFloat);
     SafeTarFile._symlink_policy := symlink_policy;
     SafeTarFile._hardlink_policy := hardlink_policy;
     SafeTarFile._sparse_policy := SparsePolicy.REJECT;
     SafeTarFile._strip_special_bits := true;
     SafeTarFile._strip_write_bits := false;
     SafeTarFile._preserve_ownership := false;
     SafeTarFile._clamp_timestamps := true;
     SafeTarFile._on_security_event := None;
     SafeTarFile._archive_size := 10240;
     SafeTarFile._tf := tf |}.

Definition text_reader (members : list TarInfo) : TarFile :=
  {| tf_members := members;
     tf_extractfile := fun _ => Ok (Some [Ok [Init.Byte.x68; Init.Byte.x69; Init.Byte.x0a]]) |}.

(** Scenario 5 of the specification: the hard link [copy.txt] comes before
    its target [original.txt]. *)
Definition hardlink_copy : TarInfo := plain_info (u "copy.txt") LNKTYPE (u "original.txt").
Definition regular_original : TarInfo := plain_info (u "original.txt") REGTYPE [].
Definition forward_reference_archive : TarFile :=
  text_reader [hardlink_copy; regular_original].

(** The same with a directory in front. *)
Definition forward_reference_after_dir : TarFile :=
  text_reader [plain_info (u "docs") DIRTYPE []; hardlink_copy; regular_original].

(** Scenario 3 of the specification, with a directory added: a symbolic
    link, then the directory, then the file the link points to. *)
Definition internal_link : TarInfo :=
  plain_info (u "internal_link.txt") SYMTYPE (u "target.txt").
Definition docs_dir : TarInfo := plain_info (u "docs") DIRTYPE [].
Definition regular_target : TarInfo := plain_info (u "target.txt") REGTYPE [].
Definition internal_symlink_archive : TarFile :=
  text_reader [internal_link; docs_dir; regular_target].

(** A symbolic link whose name and target both leave the base directory. *)
Definition escaping_link : TarInfo :=
  plain_info (u "../../evil") SYMTYPE (u "/etc/passwd").


(** The bytes of a content stream: the chunks read, up to the first empty
    chunk, the first exception or the end. *)
Fixpoint stream_content (reads : list (Result (list Init.Byte.byte))) : list Init.Byte.byte :=
  match reads with
  | [] => []
  | Raise _ :: _ => []
  | Ok chunk :: rest =>
      if bool_decide (chunk = []) then [] else chunk ++ stream_content rest
  end.

(** * Properties *)

(** ** Strings and paths *)


Lemma str_eqb_eq (a b : str) : str_eqb a b = true <-> a = b.
Proof. unfold str_eqb. by rewrite bool_decide_eq_true. Qed.

Section ResolverFacts.
Context `{Unicode} `{PathOracle}.

Lemma collect_parts_dotdot (parts clean_parts : list str) :
  In DOTDOT parts ->
  collect_parts parts clean_parts =
    Raise (UnsafeEntryError "Path traversal component '..' in member name").
Proof.
  revert clean_parts; induction parts as [|part rest IH]; intros acc Hin; [done|].
  simpl. destruct Hin as [Heq | Hin].
  - subst part. reflexivity.
  - destruct (str_eqb part [] || str_eqb part DOT); [by apply IH|].
    destruct (str_eqb part DOTDOT); [done | by apply IH].
Qed.

Lemma is_windows_absolute_drive (c : char) (rest : str) :
  isalpha c = true -> is_windows_absolute (c :: COLON :: SLASH :: rest) = true.
Proof.
  intros Hc. unfold is_windows_absolute, char_at, len. simpl nth.
  rewrite Hc, !N.eqb_refl, !andb_true_r. apply Z.leb_le. simpl length. lia.
Qed.
End ResolverFacts.

(** ** Path resolution *)

(** C1.  Whatever the base directory (as long as it resolves), a member
    name whose NFC-normalised form, with backslashes turned into slashes,
    has a [..] segment, starts with [/], or starts with a letter followed by
    [:/], makes [resolve_member_path] raise [UnsafeEntryError].  A letter is
    any character [str.isalpha] accepts.  A [..] segment is rejected wherever
    it stands: it is never cancelled against the segment before it. *)
Theorem resolve_member_path_rejects_traversal_and_absolute
    `{Unicode} `{PathOracle} (w : World) (B base : Path) (N : str) :
  realpath w B = Some base ->
  let _norm := replace BACKSLASH SLASH (normalize_NFC N) in
  In DOTDOT (split SLASH _norm)
  \/ startswith _norm [SLASH] = true
  \/ (exists c rest, _norm = c :: COLON :: SLASH :: rest /\ isalpha c = true) ->
  exists msg, resolve_member_path w B N = Raise (UnsafeEntryError msg).
Proof.
  intros Hbase _norm Hbad. unfold resolve_member_path. rewrite Hbase.
  fold _norm.
  destruct (startswith _norm [SLASH]) eqn:Habs; [eauto|].
  destruct (is_windows_absolute _norm) eqn:Hwin; [eauto|].
  destruct Hbad as [Hdots | [Hslash | (c & rest & Heq & Hc)]].
  - rewrite (collect_parts_dotdot _ _ Hdots). simpl. eauto.
  - congruence.
  - rewrite Heq, (is_windows_absolute_drive c rest Hc) in Hwin. congruence.
Qed.

Lemma resolve_member_path_rejects_traversal_and_absolute_witness :
  @realpath PlainDisk empty_world tmp_out = Some tmp_out
  /\ In DOTDOT (split SLASH (replace BACKSLASH SLASH
                              (@normalize_NFC AsciiUnicode (u "docs\..\..\etc/passwd"))))
  /\ exists msg,
      @resolve_member_path AsciiUnicode PlainDisk empty_world tmp_out
        (u "docs\..\..\etc/passwd") = Raise (UnsafeEntryError msg).
Proof.
  split; [reflexivity|]. split; [vm_compute; tauto|].
  apply (@resolve_member_path_rejects_traversal_and_absolute
           AsciiUnicode PlainDisk empty_world tmp_out tmp_out
           (u "docs\..\..\etc/passwd")).
  - reflexivity.
  - left. vm_compute. tauto.
Defined.

(** The three kinds of name of C1, run on the plain environment. *)
Example resolve_dotdot_inside :
  @resolve_member_path AsciiUnicode PlainDisk empty_world tmp_out (u "a/../b")
  = Raise (UnsafeEntryError "Path traversal component '..' in member name").
Proof. reflexivity. Qed.

Example resolve_absolute :
  @resolve_member_path AsciiUnicode PlainDisk empty_world tmp_out (u "/etc/passwd")
  = Raise (UnsafeEntryError "Absolute path detected in member name").
Proof. reflexivity. Qed.

Example resolve_drive :
  @resolve_member_path AsciiUnicode PlainDisk empty_world tmp_out (u "C:\Windows\system32")
  = Raise (UnsafeEntryError "Absolute Windows path detected in member name").
Proof. reflexivity. Qed.

Example resolve_nested :
  @resolve_member_path AsciiUnicode PlainDisk empty_world tmp_out (u "a/./b//c.txt")
  = Ok [u "tmp"; u "out"; u "a"; u "b"; u "c.txt"].
Proof. reflexivity. Qed.


(** C10.  The length limit of [resolve_member_path] bears on the whole
    destination path, base directory included.  With a base directory whose
    string form has 4080 characters, the 20-character name
    [data/report-2024.txt] is accepted by [validate_filename], which bounds
    the name alone, yet [resolve_member_path] raises [UnsafeEntryError]
    because the composed path has 4101 characters. *)
Theorem resolve_member_path_limits_composed_path :
  exists (B : Path) (N : str),
    len (path_str B) = 4080
    /\ len N = 20
    /\ @validate_filename AsciiUnicode (plain_info N REGTYPE []) = Ok N
    /\ len (path_str (path_join B N)) = 4101
    /\ @resolve_member_path AsciiUnicode PlainDisk empty_world B N
       = Raise (UnsafeEntryError "Resolved path length exceeds MAX_PATH (4096)").
Proof.
  exists long_base, (u "data/report-2024.txt").
  repeat split; vm_compute; reflexivity.
Qed.

(** The limit is tested on [str(base / joined)]: a name that passes the
    earlier tests is refused for its length exactly when the composed path
    is longer than [MAX_PATH]. *)
Lemma resolve_member_path_length_test `{Unicode} `{PathOracle}
    (w : World) (B base : Path) (N : str) (clean_parts : list str) :
  realpath w B = Some base ->
  let _norm := replace BACKSLASH SLASH (normalize_NFC N) in
  startswith _norm [SLASH] = false ->
  is_windows_absolute _norm = false ->
  collect_parts (split SLASH _norm) [] = Ok clean_parts ->
  clean_parts <> [] ->
  contains_char NUL (join SLASH clean_parts) = false ->
  (MAX_PATH < len (path_str (path_join base (join SLASH clean_parts))) <->
   resolve_member_path w B N
   = Raise (UnsafeEntryError "Resolved path length exceeds MAX_PATH (4096)")).
Proof.
  intros Hbase _norm Habs Hwin Hparts Hne Hnul. unfold resolve_member_path.
  rewrite Hbase. fold _norm. rewrite Habs, Hwin, Hparts. simpl.
  rewrite bool_decide_eq_false_2 by done. rewrite Hnul.
  destruct (Z.ltb_spec MAX_PATH (len (path_str (path_join base (join SLASH clean_parts))))).
  - split; done.
  - split; [lia|]. destruct (negb _); discriminate.
Qed.

(** ** The byte monitor *)

Section MonitorFacts.
Context `{PyFloat}.
Import ExtractionMonitor.

Lemma account_limits (self : t) (n : Z) :
  _max_file_size (account self n).2 = _max_file_size self
  /\ _max_total_size (account self n).2 = _max_total_size self
  /\ _max_ratio (account self n).2 = _max_ratio self
  /\ _archive_size (account self n).2 = _archive_size self.
Proof. unfold account. repeat case_match; simpl; done. Qed.

Lemma account_counters (self : t) (n : Z) :
  _member_bytes (account self n).2 = _member_bytes self + n
  /\ _total_bytes (account self n).2 = _total_bytes self + n.
Proof. unfold account. repeat case_match; simpl; done. Qed.

Lemma after_calls_counters (self : t) (ns : list Z) :
  _member_bytes (after_calls self ns) = _member_bytes self + foldr Z.add 0 ns
  /\ _total_bytes (after_calls self ns) = _total_bytes self + foldr Z.add 0 ns
  /\ _max_file_size (after_calls self ns) = _max_file_size self
  /\ _max_total_size (after_calls self ns) = _max_total_size self
  /\ _max_ratio (after_calls self ns) = _max_ratio self
  /\ _archive_size (after_calls self ns) = _archive_size self.
Proof.
  revert self; induction ns as [|n ns IH]; intros self; simpl.
  - repeat split; lia.
  - destruct (IH (account self n).2) as (-> & -> & -> & -> & -> & ->).
    destruct (account_counters self n) as (-> & ->).
    destruct (account_limits self n) as (-> & -> & -> & ->).
    repeat split; lia.
Qed.

(** C3.  After any sequence of calls, [account(n)] adds [n] to the
    per-member counter and to the total counter, whether it raises or
    not, and then raises [FileSizeExceededError] when the per-member
    counter is above [max_file_size], otherwise [TotalSizeExceededError]
    when the total is above [max_total_size], otherwise
    [CompressionRatioError] when [archive_size > 0] and the total divided
    by [archive_size] is above [max_ratio], and otherwise returns.  The
    division is made under the guard only: the call never raises
    [ZeroDivisionError], and with [archive_size <= 0] the ratio is not
    looked at. *)
Theorem account_enforces_limits_in_order (self : t) (ns : list Z) (n : Z) :
  let before := after_calls self ns in
  let result := (account before n).1 in
  let after := (account before n).2 in
  _member_bytes after = _member_bytes before + n
  /\ _total_bytes after = _total_bytes before + n
  /\ result =
       (if _max_file_size self <? _member_bytes after
        then Raise FileSizeExceededError
        else if _max_total_size self <? _total_bytes after
        then Raise TotalSizeExceededError
        else if (0 <? _archive_size self)
                && float_gt (int_truediv (_total_bytes after) (_archive_size self))
                     (_max_ratio self)
        then Raise CompressionRatioError
        else Ok tt).
Proof.
  intros before result after.
  destruct (after_calls_counters self ns) as (_ & _ & Hf & Ht & Hr & Ha).
  fold before in Hf, Ht, Hr, Ha.
  destruct (account_counters before n) as (Hm & Htot).
  fold after in Hm, Htot. split; [done|]. split; [done|].
  rewrite <- Hf, <- Ht, <- Hr, <- Ha, Hm, Htot. subst result. clear.
  unfold account. simpl.
  destruct (_ <? _ + n); [done|]. destruct (_ <? _total_bytes before + n); [done|].
  simpl. unfold _check_ratio. simpl.
  destruct (Z.leb_spec (_archive_size before) 0) as [Hle | Hgt].
  - replace (0 <? _archive_size before) with false by (symmetry; apply Z.ltb_ge; lia).
    done.
  - replace (0 <? _archive_size before) with true by (symmetry; apply Z.ltb_lt; lia).
    unfold py_truediv.
    replace (_archive_size before =? 0) with false by (symmetry; apply Z.eqb_neq; lia).
    simpl. by destruct (float_gt _ _).
Qed.
End MonitorFacts.

(** The gzip bomb of the specification in small: 1000 bytes out of a
    10-byte archive under [max_ratio = 5]. *)
Example account_ratio_exceeded :
  (@ExtractionMonitor.account ExactFloat
     (@ExtractionMonitor.init ExactFloat 100000 100000 (QArith_base.inject_Z 5) 10) 1000).1
  = Raise CompressionRatioError.
Proof. reflexivity. Qed.

Example account_no_ratio_without_size :
  (@ExtractionMonitor.account ExactFloat
     (@ExtractionMonitor.init ExactFloat 100000 100000 (QArith_base.inject_Z 5) 0) 1000).1
  = Ok tt.
Proof. reflexivity. Qed.

(** ** Entry types *)

Lemma _is_sparse_spec (info : TarInfo) : _is_sparse info = spec_sparse info.
Proof.
  unfold _is_sparse, spec_sparse, has_key, _GNUTYPE_SPARSE, GNUTYPE_SPARSE.
  destruct (ti_sparse info) as [[|seg segs]|]; simpl; try done;
    (destruct (N.eqb_spec (ti_type info) 83);
     [by rewrite bool_decide_eq_true_2
     |by rewrite (bool_decide_eq_false_2 (ti_type info = 83%N))]).
Qed.

(** C7.  [validate_entry_type] is the classification table of the
    specification: sparseness is tested first (the reader's attribute, the
    GNU [S] type byte, or the [GNU.sparse] PAX keys) and gives
    [UnsafeEntryTypeError] under [REJECT] and ["extract"] under
    [MATERIALISE]; then regular files and directories give ["extract"],
    symbolic links and hard links follow their policies, character
    devices, block devices and FIFOs raise [UnsafeEntryTypeError] with
    their label, and every other type code raises [UnsafeEntryTypeError]. *)
Theorem validate_entry_type_table (info : TarInfo)
    (symlink_policy : SymlinkPolicy.t) (hardlink_policy : HardlinkPolicy.t)
    (sparse_policy : SparsePolicy.t) :
  validate_entry_type info symlink_policy hardlink_policy sparse_policy
  = spec_disposition info symlink_policy hardlink_policy sparse_policy.
Proof.
  unfold validate_entry_type, spec_disposition. rewrite _is_sparse_spec.
  destruct (spec_sparse info); [by destruct sparse_policy|].
  generalize (ti_type info) as ty; intros ty.
  unfold spec_kind, type_in, _REGULAR_TYPES, _DIR_TYPE, _SYMLINK_TYPE,
    _HARDLINK_TYPE, _FORBIDDEN_TYPES, _type_names_get,
    REGTYPE, AREGTYPE, CONTTYPE, DIRTYPE, SYMTYPE, LNKTYPE, CHRTYPE, BLKTYPE, FIFOTYPE.
  destruct (decide (ty = 48%N)) as [->|]; [done|].
  destruct (decide (ty = 0%N)) as [->|]; [done|].
  destruct (decide (ty = 55%N)) as [->|]; [done|].
  destruct (decide (ty = 53%N)) as [->|]; [done|].
  destruct (decide (ty = 50%N)) as [->|]; [done|].
  destruct (decide (ty = 49%N)) as [->|]; [done|].
  destruct (decide (ty = 51%N)) as [->|]; [done|].
  destruct (decide (ty = 52%N)) as [->|]; [done|].
  destruct (decide (ty = 54%N)) as [->|]; [done|].
  simpl. rewrite !(proj2 (N.eqb_neq ty _)) by done. simpl.
  rewrite decide_False by intuition congruence.
  rewrite ?decide_False by done. done.
Qed.

(** ** The file-count pre-scan *)






Example pre_scan_truncated_gzip :
  let h := plain_info (u "f") REGTYPE [] in
  (pre_scan_file_count
     {| scan_open := None; scan_next := [Ok h; Raise EOFError]; scan_exit := None |}
     {| f_pos := 0; f_headers_read := 0 |} 10).1
  = Raise MalformedArchiveError.
Proof. reflexivity. Qed.

(** ** Ownership *)

Lemma sanitise_ownership_preserve (proc : Process) (uid gid : Z) :
  sanitise_ownership proc uid gid true = (uid, gid).
Proof. reflexivity. Qed.

Lemma sanitise_ownership_clamp (proc : Process) (uid gid : Z) :
  sanitise_ownership proc uid gid false = (os_getuid proc, os_getgid proc).
Proof. reflexivity. Qed.

(** C9, at the input where the code and the claim part.  In a process whose
    real and effective ids differ, [sanitise_ownership] without
    [preserve_ownership] gives the real ids, which [os.getuid()] and
    [os.getgid()] return, and not the effective ones. *)
Theorem sanitise_ownership_gives_real_ids :
  sanitise_ownership setuid_process 0 0 false = (1000, 1000)
  /\ (os_geteuid setuid_process, os_getegid setuid_process) = (0, 0)
  /\ sanitise_ownership setuid_process 0 0 false
     <> (os_geteuid setuid_process, os_getegid setuid_process).
Proof. repeat split; done. Qed.

(** ** System calls *)

Lemma syscall_outcome (e : Event) effect (w : World) :
  exists ok : bool,
    (syscall e effect w).1 = (if ok then Ok tt else Raise OSError)
    /\ w_trace (syscall e effect w).2 = w_trace w ++ [(e, ok)]
    /\ w_files (syscall e effect w).2 = (if ok then effect (w_files w) else w_files w)
    /\ w_rand (syscall e effect w).2 = w_rand w
    /\ w_now (syscall e effect w).2 = w_now w.
Proof.
  unfold syscall, next_fault.
  destruct (w_faults w) as [|[] faults]; simpl;
    [by exists true | by exists false | by exists true].
Qed.

Lemma suppress_outcome (e : Event) effect (w : World) :
  exists ok : bool,
    (suppress_OSError (syscall e effect) w).1 = Ok tt
    /\ w_trace (suppress_OSError (syscall e effect) w).2 = w_trace w ++ [(e, ok)]
    /\ w_files (suppress_OSError (syscall e effect) w).2
       = (if ok then effect (w_files w) else w_files w)
    /\ w_now (suppress_OSError (syscall e effect) w).2 = w_now w.
Proof.
  destruct (syscall_outcome e effect w) as (ok & Hr & Ht & Hf & _ & Hn).
  exists ok. unfold suppress_OSError.
  destruct (syscall e effect w) as [r w']. simpl in *. subst r.
  by destruct ok.
Qed.

Lemma randint_files (w : World) :
  w_files (randint w).2 = w_files w /\ w_trace (randint w).2 = w_trace w.
Proof. unfold randint. by destruct (w_rand w). Qed.

(** ** The atomic write *)

Lemma temp_suffix_nonempty (proc : Process) (rnd : N) :
  temp_suffix proc rnd <> [].
Proof. unfold temp_suffix. simpl. done. Qed.

Lemma temp_path_differs (proc : Process) (rnd : N) (dest_path : Path) :
  temp_path_of proc rnd dest_path <> dest_path.
Proof.
  unfold temp_path_of, path_with_name, path_name. intros Heq.
  destruct (decide (dest_path = [])) as [-> | Hne]; [done|].
  rewrite (app_removelast_last [] Hne) in Heq at 3.
  apply app_inv_head in Heq. injection Heq as Heq.
  apply (f_equal length) in Heq. rewrite length_app in Heq.
  pose proof (temp_suffix_nonempty proc rnd) as Hs.
  destruct (temp_suffix proc rnd); [done | simpl in Heq].
  unfold str, char in *. lia.
Qed.

Lemma temp_path_parent (proc : Process) (rnd : N) (dest_path : Path) :
  path_parent (temp_path_of proc rnd dest_path) = path_parent dest_path.
Proof. unfold path_parent, temp_path_of, path_with_name. apply removelast_last. Qed.

Ltac unfold_calls :=
  unfold mkdir_parents, touch, open_wb, write, rename, unlink_missing_ok,
    os_link, os_symlink, os_chown, os_chmod, os_utime in *.

(** Case analysis on the outcome of the first system call in sight. *)
Ltac step_syscall :=
  let ok := fresh "ok" in
  let Hr := fresh "Hr" in
  let Ht := fresh "Htrace" in
  let Hf := fresh "Hfiles" in
  let r := fresh "r" in
  let w := fresh "w" in
  lazymatch goal with
  | H : context [syscall ?e ?eff ?w0] |- _ =>
      destruct (syscall_outcome e eff w0) as (ok & Hr & Ht & Hf & _ & _);
      destruct (syscall e eff w0) as [r w]; simpl in Hr, Ht, Hf; subst r;
      destruct ok; simpl in H
  end.

Section StreamerFacts.
Context `{PyFloat}.


End StreamerFacts.



(** The same member on a disk without faults. *)
Example extract_member_streaming_success :
  let dest_path := tmp_out ++ [u "data.bin"] in
  let temp_path := tmp_out ++ [u "data.bin.safetar_tmp_4242_000000"] in
  let run := @extract_member_streaming ExactFloat user_process one_chunk_tar
               (plain_info (u "data.bin") REGTYPE []) dest_path
               empty_world default_monitor in
  run.1.1 = Ok tt
  /\ w_files run.1.2 !! temp_path = None
  /\ w_files run.1.2 !! dest_path = Some [Init.Byte.x41; Init.Byte.x42].
Proof. vm_compute. done. Qed.

(** ** The log of a run *)

Lemma extends_refl (P : Event -> Prop) (w : World) : extends P w w.
Proof. exists []. by rewrite app_nil_r. Qed.

Lemma extends_trans (P : Event -> Prop) (w1 w2 w3 : World) :
  extends P w1 w2 -> extends P w2 w3 -> extends P w1 w3.
Proof.
  intros (t1 & Ht1 & HP1) (t2 & Ht2 & HP2). exists (t1 ++ t2).
  rewrite Ht2, Ht1, <- app_assoc. split; [done | by apply Forall_app].
Qed.

Lemma extends_mono (P Q : Event -> Prop) (w w' : World) :
  (forall e, P e -> Q e) -> extends P w w' -> extends Q w w'.
Proof.
  intros HPQ (t & Ht & HP). exists t. split; [done|].
  eapply Forall_impl; [exact HP | simpl; auto].
Qed.

Lemma extends_same_trace (P : Event -> Prop) (w w' : World) :
  w_trace w' = w_trace w -> extends P w w'.
Proof. intros Ht. exists []. by rewrite app_nil_r. Qed.

Lemma extends_syscall (P : Event -> Prop) (e : Event) effect (w : World) r w' :
  syscall e effect w = (r, w') -> P e -> extends P w w'.
Proof.
  intros Hcall HP. destruct (syscall_outcome e effect w) as (ok & _ & Ht & _).
  rewrite Hcall in Ht. simpl in Ht. exists [(e, ok)]. split; [done|].
  by apply Forall_singleton.
Qed.

Lemma extends_suppress (P : Event -> Prop) (e : Event) effect (w : World) :
  P e -> extends P w (suppress_OSError (syscall e effect) w).2.
Proof.
  intros HP. destruct (suppress_outcome e effect w) as (ok & _ & Ht & _).
  exists [(e, ok)]. split; [done|]. by apply Forall_singleton.
Qed.

Lemma extends_log (P : Event -> Prop) (e : Event) (ok : bool) (w : World) :
  P e -> extends P w (log e ok w).
Proof. intros HP. exists [(e, ok)]. split; [done|]. by apply Forall_singleton. Qed.

Section StreamerLog.
Context `{PyFloat}.

Lemma copy_loop_extends (P : Event -> Prop) reads (temp_path : Path) (w : World) m r w' m' :
  (forall n, P (EvWrite temp_path n)) ->
  copy_loop reads temp_path w m = (r, w', m') ->
  extends P w w'.
Proof.
  intros HP. revert w m; induction reads as [|[chunk|e] reads IH]; intros w m Hrun;
    simpl in Hrun.
  - injection Hrun as <- <- <-. apply extends_refl.
  - case_bool_decide; [injection Hrun as <- <- <-; apply extends_refl|].
    destruct (write temp_path chunk w) as [[[]|e] w1] eqn:Hwrite;
      (assert (extends P w w1) as Hw1 by (eapply extends_syscall; [exact Hwrite | apply HP])).
    + destruct (ExtractionMonitor.account m (len chunk)) as [[[]|e] m1].
      * eapply extends_trans; [exact Hw1 | eapply IH; exact Hrun].
      * by injection Hrun as <- <- <-.
    + by injection Hrun as <- <- <-.
  - injection Hrun as <- <- <-. apply extends_refl.
Qed.

Lemma streaming_body_extends (P : Event -> Prop) (tf : TarFile) (info : TarInfo)
    (dest_path temp_path : Path) (w : World) m r w' m' :
  P (EvMkdir (path_parent temp_path)) -> P (EvTouch temp_path) -> P (EvOpen temp_path) ->
  (forall n, P (EvWrite temp_path n)) -> P (EvRename temp_path dest_path) ->
  streaming_body tf info dest_path temp_path w m = (r, w', m') ->
  extends P w w'.
Proof.
  intros Hmk Htouch Hopen Hwrite Hren Hrun. unfold streaming_body in Hrun.
  destruct (mkdir_parents _ w) as [[[]|e] w1] eqn:H1;
    (assert (extends P w w1) as Hw1 by (eapply extends_syscall; [exact H1 | done]));
    [|by injection Hrun as <- <- <-].
  destruct (tf_extractfile tf info) as [[source|]|e]; [| |by injection Hrun as <- <- <-].
  - destruct (open_wb temp_path w1) as [[[]|e] w2] eqn:H2;
      (assert (extends P w1 w2) as Hw2 by (eapply extends_syscall; [exact H2 | done]));
      [|injection Hrun as <- <- <-; by eapply extends_trans].
    destruct (copy_loop source temp_path w2 m) as [[[[]|e] w3] m3] eqn:H3;
      (assert (extends P w2 w3) as Hw3 by (eapply copy_loop_extends; [exact Hwrite | exact H3]));
      [|injection Hrun as <- <- <-; eauto using extends_trans].
    destruct (rename temp_path dest_path w3) as [r4 w4] eqn:H4.
    assert (extends P w3 w4) as Hw4 by (eapply extends_syscall; [exact H4 | done]).
    injection Hrun as <- <- <-. eauto using extends_trans.
  - destruct (touch temp_path w1) as [[[]|e] w2] eqn:H2;
      (assert (extends P w1 w2) as Hw2 by (eapply extends_syscall; [exact H2 | done]));
      [|injection Hrun as <- <- <-; by eapply extends_trans].
    destruct (rename temp_path dest_path w2) as [r4 w4] eqn:H4.
    assert (extends P w2 w4) as Hw4 by (eapply extends_syscall; [exact H4 | done]).
    injection Hrun as <- <- <-. eauto using extends_trans.
Qed.

Lemma extends_randint (P : Event -> Prop) (w : World) : extends P w (randint w).2.
Proof. apply extends_same_trace. apply randint_files. Qed.

(** Everything [extract_member_streaming] does targets the destination,
    its parent or its temporary sibling. *)
Lemma extract_member_streaming_extends (proc : Process) (tf : TarFile) (info : TarInfo)
    (dest_path : Path) (w : World) m r w' m' :
  extract_member_streaming proc tf info dest_path w m = (r, w', m') ->
  extends (fun e => inner_event e /\ targets proc dest_path e) w w'.
Proof.
  unfold extract_member_streaming. intros Hrun.
  pose proof (extends_randint (fun e => inner_event e /\ targets proc dest_path e) w) as H0.
  destruct (randint w) as [rnd w0]. simpl in H0.
  set (temp_path := temp_path_of proc rnd dest_path) in *.
  destruct (streaming_body tf info dest_path temp_path w0 _) as [[r1 w1] m1] eqn:Hbody.
  assert (extends (fun e => inner_event e /\ targets proc dest_path e) w0 w1) as H1.
  { eapply streaming_body_extends; [| | | | | exact Hbody]; simpl;
      try (split; [done|]); eauto.
    right. apply temp_path_parent. }
  assert (extends (fun e => inner_event e /\ targets proc dest_path e) w1
            (suppress_OSError (unlink_missing_ok temp_path) w1).2) as H2.
  { apply extends_suppress. simpl. eauto. }
  destruct (suppress_OSError (unlink_missing_ok temp_path) w1) as [r2 w2]. simpl in H2.
  destruct r1 as [[]|exc].
  - injection Hrun as <- <- <-. eauto using extends_trans.
  - destruct exc; injection Hrun as <- <- <-; eauto using extends_trans.
Qed.
End StreamerLog.

Section CoreFacts.
Context `{Unicode} `{PathOracle} `{PyFloat}.
Import SafeTarFile.

Lemma validate_filename_name (info : TarInfo) (name : str) :
  validate_filename info = Ok name -> name = ti_name info.
Proof.
  unfold validate_filename, _effective_name. repeat case_match; congruence.
Qed.

Lemma _apply_metadata_extends (P : Event -> Prop) (self : t) (proc : Process)
    (info : TarInfo) (dest_path : Path) (w : World) :
  (forall uid gid, P (EvChown dest_path uid gid)) ->
  (forall mode, P (EvChmod dest_path mode)) ->
  (forall mtime, P (EvUtime dest_path mtime)) ->
  extends P w (_apply_metadata self proc info dest_path w).
Proof.
  intros Hown Hmod Htime. unfold _apply_metadata.
  set (w1 := if _preserve_ownership self then _ else w).
  set (w2 := match ti_mode info with Some _ => _ | None => w1 end).
  assert (extends P w w1) as Hw1.
  { subst w1. destruct (_preserve_ownership self); [|apply extends_refl].
    simpl. apply extends_suppress, Hown. }
  assert (extends P w1 w2) as Hw2.
  { subst w2. destruct (ti_mode info); [|apply extends_refl].
    apply extends_suppress, Hmod. }
  eapply extends_trans; [by eapply extends_trans|].
  apply extends_suppress, Htime.
Qed.

(** What the handling of one member can change: nothing at all (the
    member was refused before any write, or skipped), or things
    that all bear on the path [resolve_member_path] returned for its
    name. *)
Lemma _extract_one_inner_effect (self : t) (proc : Process) (info : TarInfo)
    (base_dir : Path) (st : RunState) r st' :
  _extract_one_inner self proc info base_dir st = (r, st') ->
  (st' = st /\ (is_ok r = true -> is_deferred self info = false))
  \/ exists dest,
       resolve_member_path (world st) base_dir (ti_name info) = Ok dest
       /\ extends (fun e => inner_event e /\ targets proc dest e) (world st) (world st')
       /\ deferred_symlinks st' =
            deferred_symlinks st
            ++ (if is_ok r && is_deferred self info then [(dest, ti_linkname info)] else [])
       /\ (exists l, deferred_dirs st' = deferred_dirs st ++ l
                     /\ Forall (fun x => x.2 = dest) l)
       /\ extracted_paths st' ⊆ extracted_paths st ∪ {[dest]}.
Proof.
  unfold _extract_one_inner, is_deferred. intros Hrun.
  destruct (validate_entry_type info _ _ _) as [disposition|e];
    [|injection Hrun as <- <-; by left].
  destruct (String.eqb disposition "skip") eqn:Hskip.
  { injection Hrun as <- <-. left. split; [done|]. intros _.
    apply String.eqb_eq in Hskip as ->. done. }
  destruct (validate_filename info) as [name|e] eqn:Hname;
    [|injection Hrun as <- <-; by left].
  apply validate_filename_name in Hname as ->.
  destruct (validate_pax_path info) as [pax_path|e]; [|injection Hrun as <- <-; by left].
  destruct (resolve_member_path (world st) base_dir (ti_name info)) as [dest|e];
    [|injection Hrun as <- <-; by left].
  match type of Hrun with
  | match ?c with _ => _ end = _ => destruct c as [[]|e]
  end; [|injection Hrun as <- <-; by left].
  right. exists dest. split; [done|].
  destruct (String.eqb disposition "defer_symlink") eqn:Hdefer.
  { injection Hrun as <- <-. simpl.
    split; [apply extends_refl|]. split; [done|].
    split; [exists []; by rewrite app_nil_r | set_solver]. }
  rewrite andb_false_r, app_nil_r.
  destruct (isdir info).
  { unfold on_world in Hrun.
    destruct (mkdir_parents dest (world st)) as [[[]|e] w1] eqn:Hmk;
      injection Hrun as <- <-; simpl;
      (split; [eapply extends_syscall; [exact Hmk | simpl; eauto]|]);
      (split; [done|]).
    - split; [exists [(info, dest)]; split; [done | by apply Forall_singleton] | done].
    - split; [exists []; by rewrite app_nil_r | set_solver]. }
  destruct (islnk info).
  { destruct (verify_hardlink_target _ _ _ _ _) as [target_path|e].
    2:{ injection Hrun as <- <-. split; [apply extends_refl|]. split; [done|].
        split; [exists []; by rewrite app_nil_r | set_solver]. }
    unfold on_world in Hrun. simpl in Hrun.
    destruct (mkdir_parents (path_parent dest) (world st)) as [[[]|e] w1] eqn:Hmk;
      (assert (extends (fun e => inner_event e /\ targets proc dest e) (world st) w1) as Hw1
         by (eapply extends_syscall; [exact Hmk | simpl; eauto])); simpl in Hrun.
    2:{ injection Hrun as <- <-. simpl. split; [done|]. split; [done|].
        split; [exists []; by rewrite app_nil_r | set_solver]. }
    destruct (os_link target_path dest w1) as [[[]|e] w2] eqn:Hlink;
      (assert (extends (fun e => inner_event e /\ targets proc dest e) w1 w2) as Hw2
         by (eapply extends_syscall; [exact Hlink | simpl; eauto]));
      injection Hrun as <- <-; simpl;
      (split; [by eapply extends_trans|]); (split; [done|]);
      (split; [exists []; by rewrite app_nil_r | set_solver]). }
  destruct (extract_member_streaming proc (_tf self) info dest (world st) (monitor st))
    as [[[[]|e] w1] m1] eqn:Hstream;
    apply extract_member_streaming_extends in Hstream;
    injection Hrun as <- <-; simpl.
  - split.
    { eapply extends_trans; [exact Hstream|].
      apply _apply_metadata_extends; simpl; eauto. }
    split; [done|]. split; [exists []; by rewrite app_nil_r | done].
  - split; [done|]. split; [done|].
    split; [exists []; by rewrite app_nil_r | set_solver].
Qed.
End CoreFacts.

Example scenario_hardlink_forward_reference :
  (@SafeTarFile.extractall AsciiUnicode PlainDisk ExactFloat
     (config forward_reference_archive SymlinkPolicy.REJECT HardlinkPolicy.INTERNAL)
     user_process (Some tmp_out) None empty_world).1
  = Raise (UnsafeEntryError "Hardlink target not yet extracted (forward reference rejected)").
Proof. vm_compute. reflexivity. Qed.

Example scenario_internal_symlink_log :
  List.map fst
    (w_trace (@SafeTarFile.extractall AsciiUnicode PlainDisk ExactFloat
       (config internal_symlink_archive SymlinkPolicy.RESOLVE_INTERNAL HardlinkPolicy.REJECT)
       user_process (Some tmp_out) None empty_world).2)
  = [ EvMkdir tmp_out;
      EvMember (u "internal_link.txt");
      EvMkdir (tmp_out ++ [u "docs"]);
      EvMember (u "docs");
      EvMkdir tmp_out;
      EvOpen (tmp_out ++ [u "target.txt.safetar_tmp_4242_000000"]);
      EvWrite (tmp_out ++ [u "target.txt.safetar_tmp_4242_000000"]) 3;
      EvRename (tmp_out ++ [u "target.txt.safetar_tmp_4242_000000"])
        (tmp_out ++ [u "target.txt"]);
      EvChmod (tmp_out ++ [u "target.txt"]) 420;
      EvUtime (tmp_out ++ [u "target.txt"]) 0;
      EvMember (u "target.txt");
      EvMkdir tmp_out;
      EvSymlink (u "target.txt") (tmp_out ++ [u "internal_link.txt"]);
      EvDirMetadata (tmp_out ++ [u "docs"]);
      EvChmod (tmp_out ++ [u "docs"]) 420;
      EvUtime (tmp_out ++ [u "docs"]) 0 ].
Proof. vm_compute. reflexivity. Qed.

Lemma members_done_app (t1 t2 : list (Event * bool)) :
  members_done (t1 ++ t2) = members_done t1 ++ members_done t2.
Proof. apply omap_app. Qed.

Lemma members_done_cons (e : Event) (ok : bool) (t : list (Event * bool)) :
  members_done ((e, ok) :: t)
  = match e with EvMember name => name :: members_done t | _ => members_done t end.
Proof. by destruct e. Qed.

Lemma members_done_inner (t : list (Event * bool)) :
  Forall (fun x => inner_event x.1) t -> members_done t = [].
Proof.
  induction 1 as [|[e ok] t He _ IH]; [done|].
  rewrite members_done_cons, IH. by destruct e.
Qed.

Lemma symlinks_created_app (t1 t2 : list (Event * bool)) :
  symlinks_created (t1 ++ t2) = symlinks_created t1 ++ symlinks_created t2.
Proof. apply omap_app. Qed.

Section RunFacts.
Context `{Unicode} `{PathOracle} `{PyFloat}.
Import SafeTarFile.

Lemma targets_checked_event (proc : Process) (base_dir dest : Path) (e : Event) :
  checked base_dir dest -> targets proc dest e -> checked_event proc base_dir e.
Proof. intros Hc Ht. destruct e; simpl; eauto. Qed.

Lemma _extract_one_step (self : t) (proc : Process) (info : TarInfo)
    (base_dir : Path) (st : RunState) r st' :
  _extract_one self proc info base_dir st = (r, st') ->
  exists tr,
    w_trace (world st') = w_trace (world st) ++ tr
    /\ Forall (fun x => member_phase x.1 /\ checked_event proc base_dir x.1) tr
    /\ members_done tr = (if is_ok r then [ti_name info] else [])
    /\ (exists ds, deferred_symlinks st' = deferred_symlinks st ++ ds
          /\ Forall (fun x => checked base_dir x.1) ds
          /\ (is_ok r = true ->
              List.map snd ds = if is_deferred self info then [ti_linkname info] else []))
    /\ (exists l, deferred_dirs st' = deferred_dirs st ++ l
          /\ Forall (fun x => checked base_dir x.2) l)
    /\ (forall p, p ∈ extracted_paths st' ->
          p ∈ extracted_paths st \/ checked_name base_dir (ti_name info) p).
Proof.
  unfold _extract_one. intros Hrun.
  destruct (_extract_one_inner self proc info base_dir st) as [r1 st1] eqn:Hinner.
  apply (_extract_one_inner_effect self proc) in Hinner.
  assert (exists tr1,
    w_trace (world st1) = w_trace (world st) ++ tr1
    /\ Forall (fun x => inner_event x.1
                        /\ member_phase x.1 /\ checked_event proc base_dir x.1) tr1
    /\ (exists ds, deferred_symlinks st1 = deferred_symlinks st ++ ds
          /\ Forall (fun x => checked base_dir x.1) ds
          /\ (is_ok r1 = true ->
              List.map snd ds = if is_deferred self info then [ti_linkname info] else []))
    /\ (exists l, deferred_dirs st1 = deferred_dirs st ++ l
          /\ Forall (fun x => checked base_dir x.2) l)
    /\ (forall p, p ∈ extracted_paths st1 ->
          p ∈ extracted_paths st \/ checked_name base_dir (ti_name info) p))
    as (tr1 & Htr1 & Hev1 & Hds & Hdirs & Hext).
  { destruct Hinner as [[-> Hdef] | (dest & Hres & (tr1 & Htr1 & Hev1) & Hsym & (l & Hl & Hdest) & Hsub)].
    - exists []. rewrite app_nil_r. split; [done|]. split; [done|].
      split; [exists []; rewrite app_nil_r; split; [done|]; split; [done|];
              intros Hok; by rewrite (Hdef Hok)|].
      split; [exists []; by rewrite app_nil_r | auto].
    - assert (checked_name base_dir (ti_name info) dest) as Hcn by (by exists (world st)).
      assert (checked base_dir dest) as Hc by (by exists (ti_name info)).
      exists tr1. split; [done|]. split.
      { eapply Forall_impl; [exact Hev1|]. simpl. intros [e ok] [Hin Htg]. simpl in *.
        split; [done|]. split; [by destruct e | by eapply targets_checked_event]. }
      split.
      { eexists. split; [exact Hsym|]. split.
        - destruct (is_ok r1 && is_deferred self info); [by apply Forall_singleton | done].
        - intros ->. simpl. by destruct (is_deferred self info). }
      split.
      { exists l. split; [done|]. eapply Forall_impl; [exact Hdest|].
        simpl. by intros x ->. }
      intros p Hp. apply Hsub in Hp. set_unfold. destruct Hp as [Hp | ->]; auto. }
  assert (members_done tr1 = []) as Hnone.
  { apply members_done_inner. eapply Forall_impl; [exact Hev1 | simpl; tauto]. }
  assert (Forall (fun x => member_phase x.1 /\ checked_event proc base_dir x.1) tr1) as Hev.
  { eapply Forall_impl; [exact Hev1 | simpl; tauto]. }
  destruct r1 as [[]|e].
  - injection Hrun as <- <-. simpl.
    exists (tr1 ++ [(EvMember (ti_name info), true)]).
    rewrite Htr1, <- app_assoc. split; [done|].
    split; [apply Forall_app; split; [done | by apply Forall_singleton]|].
    rewrite members_done_app, Hnone. auto.
  - destruct (is_SafetarError e); injection Hrun as <- <-; simpl.
    + unfold _fire_event. destruct (_on_security_event self) as [returns|].
      * exists (tr1 ++ [(EvCallback (_event_type_for info), returns)]).
        simpl. rewrite Htr1, <- app_assoc. split; [done|].
        split; [apply Forall_app; split; [done | by apply Forall_singleton]|].
        rewrite members_done_app, Hnone. auto.
      * exists tr1. auto 10.
    + exists tr1. auto 10.
Qed.

Lemma extract_members_run (self : t) (proc : Process) (infos : list TarInfo)
    (base_dir : Path) (st : RunState) r st' :
  extract_members self proc infos base_dir st = (r, st') ->
  exists tr,
    w_trace (world st') = w_trace (world st) ++ tr
    /\ Forall (fun x => member_phase x.1 /\ checked_event proc base_dir x.1) tr
    /\ (is_ok r = true -> members_done tr = List.map ti_name infos)
    /\ (exists ds, deferred_symlinks st' = deferred_symlinks st ++ ds
          /\ Forall (fun x => checked base_dir x.1) ds
          /\ (is_ok r = true ->
              List.map snd ds = List.map ti_linkname (List.filter (is_deferred self) infos)))
    /\ (exists l, deferred_dirs st' = deferred_dirs st ++ l
          /\ Forall (fun x => checked base_dir x.2) l)
    /\ (forall p, p ∈ extracted_paths st' ->
          p ∈ extracted_paths st
          \/ exists m, In m infos /\ checked_name base_dir (ti_name m) p).
Proof.
  revert st; induction infos as [|info infos IH]; intros st Hrun; simpl in Hrun.
  - injection Hrun as <- <-. exists []. rewrite app_nil_r.
    split; [done|]. split; [done|]. split; [done|].
    split; [exists []; by rewrite app_nil_r|].
    split; [exists []; by rewrite app_nil_r | auto].
  - destruct (_extract_one self proc info base_dir st) as [r1 st1] eqn:Hone.
    apply _extract_one_step in Hone
      as (tr1 & Htr1 & Hev1 & Hdone1 & (ds1 & Hds1 & Hc1 & Hmap1) & (l1 & Hl1 & Hd1) & Hext1).
    destruct r1 as [[]|e].
    + apply IH in Hrun
        as (tr2 & Htr2 & Hev2 & Hdone2 & (ds2 & Hds2 & Hc2 & Hmap2) & (l2 & Hl2 & Hd2) & Hext2).
      exists (tr1 ++ tr2). rewrite Htr2, Htr1, <- app_assoc. split; [done|].
      split; [by apply Forall_app|]. split.
      { intros Hok. rewrite members_done_app, Hdone1, (Hdone2 Hok). done. }
      split.
      { exists (ds1 ++ ds2). rewrite Hds2, Hds1, <- app_assoc. split; [done|].
        split; [by apply Forall_app|]. intros Hok.
        rewrite List.map_app, (Hmap1 eq_refl), (Hmap2 Hok). simpl.
        by destruct (is_deferred self info). }
      split.
      { exists (l1 ++ l2). rewrite Hl2, Hl1, <- app_assoc. split; [done|].
        by apply Forall_app. }
      intros p Hp. apply Hext2 in Hp as [Hp | (m & Hm & Hp)].
      * apply Hext1 in Hp as [Hp | Hp]; [by left | right; exists info; simpl; auto].
      * right. exists m. simpl. auto.
    + injection Hrun as <- <-. exists tr1. split; [done|]. split; [done|].
      split; [done|]. split; [exists ds1; split; [done|]; split; done|].
      split; [by exists l1|].
      intros p Hp. apply Hext1 in Hp as [Hp | Hp]; [by left | right; exists info; simpl; auto].
Qed.

Lemma create_symlinks_run (proc : Process) (base_dir : Path) (ds : list (Path * str))
    (w : World) r w' :
  create_symlinks base_dir ds w = (r, w') ->
  Forall (fun x => checked base_dir x.1) ds ->
  exists tr,
    w_trace w' = w_trace w ++ tr
    /\ Forall (fun x => symlink_phase x.1 /\ checked_event proc base_dir x.1) tr
    /\ (is_ok r = true -> symlinks_created tr = List.map snd ds).
Proof.
  revert w; induction ds as [|[sym_path sym_target] ds IH]; intros w Hrun Hc; simpl in Hrun.
  - injection Hrun as <- <-. exists []. by rewrite app_nil_r.
  - apply Forall_cons in Hc as [Hc1 Hc]. simpl in Hc1.
    destruct (verify_symlink_chain w base_dir sym_path sym_target 10) as [[]|e].
    2:{ injection Hrun as <- <-. exists []. by rewrite app_nil_r. }
    unfold mkdir_parents, os_symlink in Hrun.
    destruct (syscall_outcome (EvMkdir (path_parent sym_path)) id w) as (ok1 & Hr1 & Ht1 & _).
    destruct (syscall (EvMkdir (path_parent sym_path)) id w) as [r1 w1]. simpl in Hr1, Ht1.
    assert (symlink_phase (EvMkdir (path_parent sym_path))
            /\ checked_event proc base_dir (EvMkdir (path_parent sym_path))) as Hmk.
    { split; [done|]. exists sym_path. simpl. auto. }
    subst r1. destruct ok1.
    2:{ injection Hrun as <- <-. exists [(EvMkdir (path_parent sym_path), false)].
        split; [done|]. split; [by apply Forall_singleton | done]. }
    destruct (syscall_outcome (EvSymlink sym_target sym_path) id w1) as (ok2 & Hr2 & Ht2 & _).
    destruct (syscall (EvSymlink sym_target sym_path) id w1) as [r2 w2]. simpl in Hr2, Ht2.
    assert (symlink_phase (EvSymlink sym_target sym_path)
            /\ checked_event proc base_dir (EvSymlink sym_target sym_path)) as Hsl.
    { split; [done|]. exists sym_path. simpl. auto. }
    subst r2. destruct ok2.
    2:{ injection Hrun as <- <-.
        exists [(EvMkdir (path_parent sym_path), true); (EvSymlink sym_target sym_path, false)].
        rewrite Ht2, Ht1, <- app_assoc. split; [done|].
        split; [by repeat (apply List.Forall_cons; [done|]) | done]. }
    apply IH in Hrun as (tr & Htr & Hev & Hcreated); [|done].
    exists ((EvMkdir (path_parent sym_path), true)
            :: (EvSymlink sym_target sym_path, true) :: tr).
    rewrite Htr, Ht2, Ht1, <- !app_assoc. split; [done|].
    split; [by repeat (apply List.Forall_cons; [done|])|].
    intros Hok.
    change (symlinks_created
              ([(EvMkdir (path_parent sym_path), true);
                (EvSymlink sym_target sym_path, true)] ++ tr)
            = sym_target :: List.map snd ds).
    by rewrite symlinks_created_app, (Hcreated Hok).
Qed.

Lemma apply_deferred_dirs_run (self : t) (proc : Process) (base_dir : Path)
    (l : list (TarInfo * Path)) (w : World) :
  Forall (fun x => checked base_dir x.2) l ->
  extends (fun e => dir_phase e /\ checked_event proc base_dir e) w
    (apply_deferred_dirs self proc l w).
Proof.
  revert w; induction l as [|[dir_info dir_path] l IH]; intros w Hc; simpl.
  - apply extends_refl.
  - apply Forall_cons in Hc as [Hc1 Hc]. simpl in Hc1.
    assert (forall e, dir_phase e -> targets proc dir_path e ->
                      dir_phase e /\ checked_event proc base_dir e) as Hev.
    { intros e Hd Ht. split; [done | by eapply targets_checked_event]. }
    set (P := fun e => dir_phase e /\ checked_event proc base_dir e) in *.
    set (w1 := log (EvDirMetadata dir_path) true w).
    assert (extends P w w1) as Hw1.
    { apply extends_log. apply Hev; simpl; auto. }
    assert (extends P w1 (_apply_metadata self proc dir_info dir_path w1)) as Hw2.
    { apply _apply_metadata_extends; intros; apply Hev; simpl; auto. }
    eapply extends_trans; [exact Hw1|]. eapply extends_trans; [exact Hw2|]. by apply IH.
Qed.
End RunFacts.

Section ExtractallFacts.
Context `{Unicode} `{PathOracle} `{PyFloat}.
Import SafeTarFile.

(** The log of a whole run, cut at the ends of the first and of the
    second loop. *)
Lemma extractall_log (self : t) (proc : Process) (path : option Path)
    (members : option (list (str + TarInfo))) (w : World) :
  exists t0 t1 t2 t3,
    w_trace (extractall self proc path members w).2 = w_trace w ++ (t0 ++ t1) ++ t2 ++ t3
    /\ Forall (fun x => member_phase x.1) (t0 ++ t1)
    /\ Forall (fun x => symlink_phase x.1) t2
    /\ Forall (fun x => dir_phase x.1) t3
    /\ (t2 = [] /\ t3 = []
        \/ exists infos,
             selected self members = Ok infos
             /\ members_done (t0 ++ t1) = List.map ti_name infos
             /\ (t3 = []
                 \/ symlinks_created t2
                    = List.map ti_linkname (List.filter (is_deferred self) infos)))
    /\ (forall p base_dir,
          path = Some p -> realpath w p = Some base_dir ->
          (t0 = [] \/ exists ok, t0 = [(EvMkdir base_dir, ok)])
          /\ Forall (fun x => checked_event proc base_dir x.1) (t1 ++ t2 ++ t3)).
Proof.
  unfold extractall.
  destruct path as [path|]; [|by exists [], [], [], []; rewrite app_nil_r; auto 10].
  destruct (realpath w path) as [base_dir|] eqn:Hbase;
    [|by exists [], [], [], []; rewrite app_nil_r; auto 10].
  unfold mkdir_parents.
  destruct (syscall_outcome (EvMkdir base_dir) id w) as (ok0 & Hr0 & Ht0 & _).
  destruct (syscall (EvMkdir base_dir) id w) as [r0 w0]. simpl in Hr0, Ht0. subst r0.
  exists [(EvMkdir base_dir, ok0)].
  assert (Forall (fun x : Event * bool => member_phase x.1) [(EvMkdir base_dir, ok0)])
    as Hmk by (by apply Forall_singleton).
  destruct ok0; simpl;
    [|exists [], [], []; simpl; rewrite Ht0; split; [done|]; split; [done|];
      split; [done|]; split; [done|]; split; [by left|];
      intros p b [= <-] Hb; rewrite Hbase in Hb; injection Hb as <-; split; [eauto | done]].
  fold (selected self members).
  destruct (selected self members) as [infos|e] eqn:Hsel;
    [|exists [], [], []; simpl; rewrite Ht0; split; [done|]; split; [done|];
      split; [done|]; split; [done|]; split; [by left|];
      intros p b [= <-] Hb; rewrite Hbase in Hb; injection Hb as <-; split; [eauto | done]].
  match goal with
  | |- context [extract_members self proc infos base_dir ?st] => set (st0 := st)
  end.
  destruct (extract_members self proc infos base_dir st0) as [r1 st1] eqn:Hrun1.
  apply extract_members_run in Hrun1
    as (t1 & Ht1 & Hev1 & Hdone & (ds & Hds & Hcds & Hmap) & (l & Hl & Hcl) & _).
  simpl in Ht1, Hds, Hl. exists t1.
  assert (Forall (fun x : Event * bool => member_phase x.1) ([(EvMkdir base_dir, true)] ++ t1))
    as Hph1.
  { apply Forall_app. split; [done|]. eapply Forall_impl; [exact Hev1 | simpl; tauto]. }
  assert (Forall (fun x : Event * bool => checked_event proc base_dir x.1) t1) as Hck1.
  { eapply Forall_impl; [exact Hev1 | simpl; tauto]. }
  destruct r1 as [[]|e];
    [|exists [], []; simpl; rewrite Ht1, Ht0, !app_nil_r, <- app_assoc;
      split; [done|]; split; [done|]; split; [done|]; split; [done|]; split; [by left|];
      intros p b [= <-] Hb; rewrite Hbase in Hb; injection Hb as <-; split; [eauto | done]].
  destruct (create_symlinks base_dir (deferred_symlinks st1) (world st1)) as [r2 w2] eqn:Hrun2.
  rewrite Hds in Hrun2.
  apply (create_symlinks_run proc) in Hrun2 as (t2 & Ht2 & Hev2 & Hcreated); [|done].
  exists t2.
  assert (Forall (fun x : Event * bool => symlink_phase x.1) t2) as Hph2.
  { eapply Forall_impl; [exact Hev2 | simpl; tauto]. }
  assert (Forall (fun x : Event * bool => checked_event proc base_dir x.1) t2) as Hck2.
  { eapply Forall_impl; [exact Hev2 | simpl; tauto]. }
  assert (members_done ([(EvMkdir base_dir, true)] ++ t1) = List.map ti_name infos) as Hall.
  { rewrite members_done_app. by rewrite (Hdone eq_refl). }
  destruct r2 as [[]|e]; simpl.
  - destruct (apply_deferred_dirs_run self proc base_dir (deferred_dirs st1) w2)
      as (t3 & Ht3 & Hev3); [by rewrite Hl|].
    exists t3. rewrite Ht3, Ht2, Ht1, Ht0, <- !app_assoc.
    split; [done|]. split; [done|]. split; [done|].
    split; [eapply Forall_impl; [exact Hev3 | simpl; tauto]|].
    split.
    { right. exists infos. split; [done|]. split; [done|]. right.
      rewrite (Hcreated eq_refl). by apply Hmap. }
    intros p b [= <-] Hb. rewrite Hbase in Hb. injection Hb as <-. split; [eauto|].
    apply Forall_app. split; [done|]. apply Forall_app. split; [done|].
    eapply Forall_impl; [exact Hev3 | simpl; tauto].
  - exists []. rewrite Ht2, Ht1, Ht0, app_nil_r, <- !app_assoc.
    split; [done|]. split; [done|]. split; [done|]. split; [done|].
    split; [right; exists infos; auto|].
    intros p b [= <-] Hb. rewrite Hbase in Hb. injection Hb as <-. split; [eauto|].
    by apply Forall_app.
Qed.
End ExtractallFacts.

(** ** The order of the three loops *)

(** C5.  The log of any run of [extractall], complete or cut short by an
    exception, splits into three parts in this order: the part of the member
    loop, where no symbolic link is created and no deferred directory
    metadata is applied; the part of the symbolic links; the part of the
    directory metadata.  If anything at all was done in the second or the
    third part, every selected member had been processed before; if anything
    was done in the third part, every deferred symbolic link had been
    created before. *)
Theorem extractall_phases_in_order `{Unicode} `{PathOracle} `{PyFloat}
    (self : SafeTarFile.t) (proc : Process) (path : option Path)
    (members : option (list (str + TarInfo))) (w : World) :
  exists t1 t2 t3,
    w_trace (SafeTarFile.extractall self proc path members w).2
    = w_trace w ++ t1 ++ t2 ++ t3
    /\ Forall (fun x => member_phase x.1) t1
    /\ Forall (fun x => symlink_phase x.1) t2
    /\ Forall (fun x => dir_phase x.1) t3
    /\ (t2 = [] /\ t3 = []
        \/ exists infos,
             selected self members = Ok infos
             /\ members_done t1 = List.map ti_name infos
             /\ (t3 = []
                 \/ symlinks_created t2
                    = List.map ti_linkname (List.filter (is_deferred self) infos))).
Proof.
  destruct (extractall_log self proc path members w)
    as (t0 & t1 & t2 & t3 & Htrace & Hph1 & Hph2 & Hph3 & Hall & _).
  exists (t0 ++ t1), t2, t3. auto.
Qed.

(** ** Containment of what is written *)



Section Containment.
Context `{Unicode} `{PathOracle} `{PyFloat}.
Import SafeTarFile.









End Containment.



(** ** Hard links *)

Section HardlinkFacts.
Context `{Unicode} `{PathOracle} `{PyFloat}.
Import SafeTarFile.







End HardlinkFacts.



(** ** The unit tests of the package, run on the model *)

Example test_empty_rejected :
  @resolve_member_path AsciiUnicode PlainDisk empty_world tmp_out []
  = Raise (UnsafeEntryError "Member name resolves to empty path").
Proof. reflexivity. Qed.

Example test_dot_only_rejected :
  @resolve_member_path AsciiUnicode PlainDisk empty_world tmp_out (u ".")
  = Raise (UnsafeEntryError "Member name resolves to empty path").
Proof. reflexivity. Qed.

Example test_null_byte_rejected :
  @resolve_member_path AsciiUnicode PlainDisk empty_world tmp_out (u "safe" ++ NUL :: u "evil")
  = Raise (UnsafeEntryError "Null byte in member name").
Proof. reflexivity. Qed.

(** Fullwidth dots (U+FF0E) are no [..] segment. *)
Example test_unicode_fullwidth_dots :
  let dots : str := [65294%N; 65294%N] in
  @resolve_member_path AsciiUnicode PlainDisk empty_world tmp_out
    (dots ++ SLASH :: dots ++ SLASH :: u "evil.txt")
  = Ok (tmp_out ++ [dots; dots; u "evil.txt"]).
Proof. reflexivity. Qed.

Example test_sanitise_mode_strips_suid :
  sanitise_mode 2541 true false = 493.
Proof. reflexivity. Qed.

Example test_sanitise_ownership_preserves :
  sanitise_ownership user_process 1000 1000 true = (1000, 1000).
Proof. reflexivity. Qed.

Example test_symlink_rejected_by_default :
  validate_entry_type internal_link SymlinkPolicy.REJECT HardlinkPolicy.REJECT
    SparsePolicy.REJECT
  = Raise (UnsafeEntryError "Symlink entry rejected (policy=REJECT)").
Proof. reflexivity. Qed.

Example test_fifo_rejected :
  validate_entry_type (plain_info (u "pipe") FIFOTYPE []) SymlinkPolicy.REJECT
    HardlinkPolicy.REJECT SparsePolicy.REJECT
  = Raise (UnsafeEntryTypeError "Forbidden entry type (FIFO)").
Proof. reflexivity. Qed.

(** * Further properties of the code *)

(** ** Permission bits *)

(** X1.  With [strip_special_bits], the mode [sanitise_mode] returns has
    none of the setuid, setgid and sticky bits, whatever the other flag;
    and when write bits are kept, the nine permission bits are those of the
    archive. *)
Theorem sanitise_mode_strips_special_bits (mode : Z) (strip_write_bits : bool) :
  Z.land (sanitise_mode mode true strip_write_bits) S_ISUID = 0
  /\ Z.land (sanitise_mode mode true strip_write_bits) S_ISGID = 0
  /\ Z.land (sanitise_mode mode true strip_write_bits) S_ISVTX = 0
  /\ Z.land (sanitise_mode mode true false) 511 = Z.land mode 511.
Proof.
  unfold sanitise_mode, S_ISUID, S_ISGID, S_ISVTX, S_IWUSR, S_IWGRP, S_IWOTH.
  destruct strip_write_bits; rewrite <- ?Z.land_assoc; simpl Z.land;
    rewrite ?Z.land_0_r; done.
Qed.

(** X2.  With [strip_write_bits], no write bit is left, for owner, group
    or others, whatever the other flag; the read and execute bits are those
    of the archive. *)
Theorem sanitise_mode_strips_write_bits (mode : Z) (strip_special_bits : bool) :
  Z.land (sanitise_mode mode strip_special_bits true) S_IWUSR = 0
  /\ Z.land (sanitise_mode mode strip_special_bits true) S_IWGRP = 0
  /\ Z.land (sanitise_mode mode strip_special_bits true) S_IWOTH = 0
  /\ Z.land (sanitise_mode mode strip_special_bits true) 365 = Z.land mode 365.
Proof.
  unfold sanitise_mode, S_ISUID, S_ISGID, S_ISVTX, S_IWUSR, S_IWGRP, S_IWOTH.
  destruct strip_special_bits; rewrite <- ?Z.land_assoc; simpl Z.land;
    rewrite ?Z.land_0_r; done.
Qed.

(** X3.  [sanitise_mode] only clears bits: every bit of the result is a
    bit of the archive mode, and sanitising twice changes nothing more. *)
Theorem sanitise_mode_only_clears (mode : Z) (strip_special_bits strip_write_bits : bool) :
  Z.land (sanitise_mode mode strip_special_bits strip_write_bits) mode
  = sanitise_mode mode strip_special_bits strip_write_bits
  /\ sanitise_mode (sanitise_mode mode strip_special_bits strip_write_bits)
       strip_special_bits strip_write_bits
     = sanitise_mode mode strip_special_bits strip_write_bits.
Proof.
  unfold sanitise_mode, S_ISUID, S_ISGID, S_ISVTX, S_IWUSR, S_IWGRP, S_IWOTH.
  change (Z.lnot (Z.lor (Z.lor 2048 1024) 512)) with (-3585).
  change (Z.lnot (Z.lor (Z.lor 128 16) 2)) with (-147).
  split; destruct strip_special_bits, strip_write_bits; try done;
    apply Z.bits_inj'; intros i Hi; rewrite ?Z.land_spec;
    destruct (Z.testbit mode i), (Z.testbit (-3585) i), (Z.testbit (-147) i); done.
Qed.

(** ** The shape of a resolved path *)

Lemma split_no_sep (sep : char) (p : str) :
  contains_char sep p = false -> split sep p = [p].
Proof.
  unfold contains_char. induction p as [|c p IH]; simpl; [done|].
  intros Hno. apply orb_false_iff in Hno as [Hc Hp].
  rewrite N.eqb_sym, Hc, (IH Hp). done.
Qed.

Lemma split_app_sep (sep : char) (p s : str) :
  contains_char sep p = false -> split sep (p ++ sep :: s) = p :: split sep s.
Proof.
  unfold contains_char. induction p as [|c p IH]; simpl.
  - intros _. by rewrite N.eqb_refl.
  - intros Hno. apply orb_false_iff in Hno as [Hc Hp].
    rewrite N.eqb_sym, Hc, (IH Hp). done.
Qed.

Lemma split_join (sep : char) (parts : list str) :
  parts <> [] ->
  Forall (fun p => contains_char sep p = false) parts ->
  split sep (join sep parts) = parts.
Proof.
  induction parts as [|p parts IH]; [done|]. intros _ Hall.
  apply Forall_cons in Hall as [Hp Hall]. destruct parts as [|q parts].
  - simpl. by apply split_no_sep.
  - change (join sep (p :: q :: parts)) with (p ++ sep :: join sep (q :: parts)).
    rewrite split_app_sep by done. by rewrite IH.
Qed.

Lemma split_pieces_no_sep (sep : char) (s : str) :
  Forall (fun p => contains_char sep p = false) (split sep s).
Proof.
  induction s as [|c s IH]; simpl; [by repeat constructor|].
  destruct (N.eqb_spec c sep) as [-> | Hne].
  - by constructor.
  - destruct (split sep s) as [|p ps]; [repeat constructor|].
    + unfold contains_char. simpl. rewrite orb_false_r. by apply N.eqb_neq.
    + apply Forall_cons in IH as [Hp Hps]. constructor; [|done].
      unfold contains_char in *. simpl. rewrite Hp, orb_false_r. by apply N.eqb_neq.
Qed.

Lemma contains_char_join (c sep : char) (parts : list str) :
  contains_char c (join sep parts) = false ->
  Forall (fun p => contains_char c p = false) parts.
Proof.
  unfold contains_char. induction parts as [|p parts IH]; [done|].
  destruct parts as [|q parts]; simpl.
  - intros Hp. by repeat constructor.
  - change (existsb (N.eqb c) (p ++ sep :: join sep (q :: parts)) = false ->
            Forall (fun p => existsb (N.eqb c) p = false) (p :: q :: parts)).
    rewrite existsb_app. simpl. intros Hno.
    apply orb_false_iff in Hno as [Hp Hrest]. apply orb_false_iff in Hrest as [_ Hrest].
    constructor; [done | by apply IH].
Qed.

Section ResolvedShape.
Context `{Unicode} `{PathOracle}.

Lemma collect_parts_ok (parts acc clean_parts : list str) :
  collect_parts parts acc = Ok clean_parts ->
  clean_parts
  = acc ++ List.filter (fun c => negb (str_eqb c []) && negb (str_eqb c DOT)) parts
  /\ ~ In DOTDOT parts.
Proof.
  revert acc; induction parts as [|part rest IH]; intros acc Hrun; simpl in *.
  - injection Hrun as <-. split; [by rewrite app_nil_r | by intros []].
  - destruct (str_eqb part []) eqn:He; simpl in *.
    { apply IH in Hrun as [-> Hno]. split; [done|].
      intros [Heq | Hin]; [subst part; by vm_compute in He | by apply Hno]. }
    destruct (str_eqb part DOT) eqn:Hd; simpl in *.
    { apply IH in Hrun as [-> Hno]. split; [done|].
      intros [Heq | Hin]; [subst part; by vm_compute in Hd | by apply Hno]. }
    destruct (str_eqb part DOTDOT) eqn:Hdd; [done|].
    apply IH in Hrun as [-> Hno]. rewrite <- app_assoc. split; [done|].
    intros [Heq | Hin]; [subst part; by vm_compute in Hdd | by apply Hno].
Qed.

(** X4.  A path returned by [resolve_member_path] is the resolved base
    directory followed by the segments of the normalised member name, in
    order, without the empty and the [.] segments.  There is at least one
    segment; no segment is [..], or holds a slash or a NUL; and the string
    of the path has at most 4096 characters. *)
Theorem resolve_member_path_shape (w : World) (B : Path) (N : str) (R : Path) :
  resolve_member_path w B N = Ok R ->
  exists base parts,
    realpath w B = Some base
    /\ R = base ++ parts
    /\ parts = path_parts (replace BACKSLASH SLASH (normalize_NFC N))
    /\ parts <> []
    /\ Forall (fun p => p <> [] /\ p <> DOT /\ p <> DOTDOT
                        /\ contains_char SLASH p = false
                        /\ contains_char NUL p = false) parts
    /\ len (path_str R) <= MAX_PATH.
Proof.
  unfold resolve_member_path. intros Hres.
  destruct (realpath w B) as [base|]; [|done].
  set (_norm := replace BACKSLASH SLASH (normalize_NFC N)) in *.
  destruct (startswith _norm [SLASH]); [done|].
  destruct (is_windows_absolute _norm); [done|].
  destruct (collect_parts (split SLASH _norm) []) as [clean|e] eqn:Hparts; [|done].
  simpl in Hres. apply collect_parts_ok in Hparts as [Hclean Hnodd]. simpl in Hclean.
  fold (path_parts _norm) in Hclean.
  case_bool_decide as Hne; [done|].
  destruct (contains_char NUL (join SLASH clean)) eqn:Hnul; [done|].
  destruct (MAX_PATH <? len (path_str (path_join base (join SLASH clean)))) eqn:Hlen; [done|].
  destruct (negb _); [done|]. injection Hres as <-.
  assert (Forall (fun p => p <> [] /\ p <> DOT /\ p <> DOTDOT
                           /\ contains_char SLASH p = false
                           /\ contains_char NUL p = false) clean) as Hall.
  { apply contains_char_join in Hnul.
    pose proof (split_pieces_no_sep SLASH _norm) as Hsep.
    rewrite Hclean in *. unfold path_parts in *.
    apply List.Forall_forall. intros p Hp.
    rewrite List.Forall_forall in Hnul. specialize (Hnul p Hp).
    apply List.filter_In in Hp as [Hin Hf].
    rewrite List.Forall_forall in Hsep. specialize (Hsep p Hin).
    apply andb_true_iff in Hf as [He Hd].
    apply negb_true_iff in He, Hd. unfold str_eqb in He, Hd.
    apply bool_decide_eq_false in He, Hd.
    repeat split; try done. by intros ->. }
  assert (path_join base (join SLASH clean) = base ++ clean) as Hjoin.
  { unfold path_join.
    assert (startswith (join SLASH clean) [SLASH] = false) as ->.
    { destruct clean as [|p ps]; [done|].
      apply Forall_cons in Hall as [(Hp & _ & _ & Hslash & _) _].
      destruct p as [|c p]; [done|].
      unfold contains_char in Hslash. cbn [existsb] in Hslash.
      apply orb_false_iff in Hslash as [Hc _].
      destruct ps; cbn [join startswith app]; by rewrite Hc. }
    f_equal. unfold path_parts. rewrite split_join; [|done|].
    - apply List.forallb_filter_id. apply List.forallb_forall. intros p Hp.
      rewrite List.Forall_forall in Hall. destruct (Hall p Hp) as (He & Hd & _).
      unfold str_eqb. by rewrite !bool_decide_eq_false_2.
    - eapply Forall_impl; [exact Hall | simpl; tauto]. }
  exists base, clean. rewrite Hjoin in *. split; [done|]. split; [done|].
  split; [done|]. split; [done|]. split; [done|].
  apply Z.ltb_ge in Hlen. done.
Qed.
End ResolvedShape.

Lemma resolve_member_path_shape_witness :
  @resolve_member_path AsciiUnicode PlainDisk empty_world tmp_out (u "a\.\b//c.txt")
  = Ok (tmp_out ++ [u "a"; u "b"; u "c.txt"])
  /\ exists base parts,
       @realpath PlainDisk empty_world tmp_out = Some base
       /\ tmp_out ++ [u "a"; u "b"; u "c.txt"] = base ++ parts
       /\ parts = path_parts (replace BACKSLASH SLASH
                               (@normalize_NFC AsciiUnicode (u "a\.\b//c.txt")))
       /\ parts <> []
       /\ Forall (fun p => p <> [] /\ p <> DOT /\ p <> DOTDOT
                           /\ contains_char SLASH p = false
                           /\ contains_char NUL p = false) parts
       /\ len (path_str (tmp_out ++ [u "a"; u "b"; u "c.txt"])) <= MAX_PATH.
Proof.
  split; [reflexivity|].
  apply (@resolve_member_path_shape AsciiUnicode PlainDisk empty_world tmp_out
           (u "a\.\b//c.txt")). reflexivity.
Defined.

(** ** The byte monitor, further *)

Section MonitorMore.
Context `{PyFloat}.
Import ExtractionMonitor.

(** X5.  When [account] returns without raising, the per-member counter
    is within [max_file_size], the total is within [max_total_size], and,
    for an archive of positive size, the ratio is not above [max_ratio]. *)
Theorem account_ok_within_limits (self : t) (n : Z) :
  (account self n).1 = Ok tt ->
  _member_bytes (account self n).2 <= _max_file_size self
  /\ _total_bytes (account self n).2 <= _max_total_size self
  /\ (_archive_size self <= 0
      \/ float_gt (int_truediv (_total_bytes (account self n).2) (_archive_size self))
           (_max_ratio self) = false).
Proof.
  unfold account. simpl.
  destruct (Z.ltb_spec (_max_file_size self) (_member_bytes self + n)); [done|].
  destruct (Z.ltb_spec (_max_total_size self) (_total_bytes self + n)); [done|].
  simpl. unfold _check_ratio. simpl. intros Hok. split; [done|]. split; [done|].
  destruct (Z.leb_spec (_archive_size self) 0); [by left|]. right.
  unfold py_truediv in Hok.
  replace (_archive_size self =? 0) with false in Hok by (symmetry; apply Z.eqb_neq; lia).
  simpl in Hok. by destruct (float_gt _ _).
Qed.

(** X6.  The total is never reset: once it is above [max_total_size], every
    later [account] of a non-negative number of bytes raises a size error,
    also after [reset_member] has started the next member. *)
Theorem account_breach_is_sticky (self : t) (n : Z) :
  _max_total_size self < _total_bytes self -> 0 <= n ->
  _total_bytes (reset_member self) = _total_bytes self
  /\ ((account (reset_member self) n).1 = Raise FileSizeExceededError
      \/ (account (reset_member self) n).1 = Raise TotalSizeExceededError).
Proof.
  intros Hover Hn. split; [done|]. unfold account, reset_member. simpl.
  destruct (_max_file_size self <? 0 + n); [by left|].
  replace (_max_total_size self <? _total_bytes self + n) with true
    by (symmetry; apply Z.ltb_lt; lia).
  by right.
Qed.
End MonitorMore.

Lemma account_ok_within_limits_witness :
  (@ExtractionMonitor.account ExactFloat default_monitor 4096).1 = Ok tt
  /\ @ExtractionMonitor._member_bytes ExactFloat
       (@ExtractionMonitor.account ExactFloat default_monitor 4096).2 <= 2 ^ 30.
Proof.
  split; [reflexivity|].
  apply (@account_ok_within_limits ExactFloat default_monitor 4096). reflexivity.
Defined.

Lemma account_breach_is_sticky_witness :
  let full := @ExtractionMonitor.after_calls ExactFloat
                (@ExtractionMonitor.init ExactFloat 1000 1500 (QArith_base.inject_Z 200) 0)
                [900; 900] in
  @ExtractionMonitor._total_bytes ExactFloat full = 1800
  /\ ((@ExtractionMonitor.account ExactFloat (@ExtractionMonitor.reset_member ExactFloat full) 1).1
      = Raise FileSizeExceededError
      \/ (@ExtractionMonitor.account ExactFloat (@ExtractionMonitor.reset_member ExactFloat full) 1).1
         = Raise TotalSizeExceededError).
Proof.
  intros full. split; [reflexivity|].
  apply (@account_breach_is_sticky ExactFloat full 1); [reflexivity | lia].
Defined.

(** ** The atomic write, further *)

Section StreamerMore.
Context `{PyFloat}.

Lemma copy_loop_written reads (temp_path : Path) (w : World) m w' m' (old : list Init.Byte.byte) :
  copy_loop reads temp_path w m = (Ok tt, w', m') ->
  w_files w !! temp_path = Some old ->
  w_files w' !! temp_path = Some (old ++ stream_content reads)
  /\ ExtractionMonitor._total_bytes m'
     = ExtractionMonitor._total_bytes m + len (stream_content reads)
  /\ ExtractionMonitor._member_bytes m'
     = ExtractionMonitor._member_bytes m + len (stream_content reads).
Proof.
  revert w m old; induction reads as [|[chunk|e] reads IH]; intros w m old Hrun Hold;
    simpl in *.
  - injection Hrun as <- <-. rewrite app_nil_r. unfold len. simpl. split; [done | lia].
  - case_bool_decide.
    { injection Hrun as <- <-. rewrite app_nil_r. unfold len. simpl. split; [done | lia]. }
    unfold_calls. step_syscall; [|done].
    pose proof (account_counters m (len chunk)) as [Hmem Htot].
    destruct (ExtractionMonitor.account m (len chunk)) as [[[]|e] m1]; [|done].
    simpl in Hmem, Htot.
    apply (IH _ _ (old ++ chunk)) in Hrun as (Hfile & Htot' & Hmem').
    + rewrite Hfile, Htot', Hmem', Htot, Hmem, <- app_assoc.
      unfold len. rewrite !length_app. split; [done | lia].
    + rewrite Hfiles, Hold. simpl. by rewrite lookup_insert_eq.
  - done.
Qed.

(** X7.  When [extract_member_streaming] returns for a member with a
    content stream, the destination holds exactly the bytes of the stream,
    chunk after chunk; the per-member counter of the monitor is the number
    of these bytes, and the total has grown by it. *)
Theorem extract_member_streaming_round_trip (proc : Process) (tf : TarFile)
    (info : TarInfo) (dest_path : Path) (w : World) (monitor : ExtractionMonitor.t)
    reads w' monitor' :
  tf_extractfile tf info = Ok (Some reads) ->
  extract_member_streaming proc tf info dest_path w monitor = (Ok tt, w', monitor') ->
  w_files w' !! dest_path = Some (stream_content reads)
  /\ ExtractionMonitor._member_bytes monitor' = len (stream_content reads)
  /\ ExtractionMonitor._total_bytes monitor'
     = ExtractionMonitor._total_bytes monitor + len (stream_content reads).
Proof.
  intros Hsource Hrun. unfold extract_member_streaming in Hrun.
  pose proof (temp_path_differs proc (randint w).1 dest_path) as Hne.
  destruct (randint w) as [rnd w0]. simpl in Hne.
  set (temp_path := temp_path_of proc rnd dest_path) in *.
  destruct (streaming_body tf info dest_path temp_path w0 _) as [[[[]|e] w1] m1] eqn:Hbody.
  2:{ destruct e; destruct (suppress_OSError _ w1); done. }
  injection Hrun as <- <-.
  unfold streaming_body in Hbody. rewrite Hsource in Hbody. unfold_calls.
  step_syscall; [|done]. step_syscall; [|done].
  destruct (copy_loop reads temp_path w3 (ExtractionMonitor.reset_member monitor))
    as [[[[]|e] w4] m4] eqn:Hcopy; [|done].
  apply (copy_loop_written _ _ _ _ _ _ []) in Hcopy as (Hfile & Htot & Hmem);
    [|by rewrite Hfiles0, lookup_insert_eq].
  step_syscall; [|done]. injection Hbody as <- <-.
  rewrite Hfiles1, Hfile, lookup_insert_eq. simpl in *. split; [done|]. split; lia.
Qed.
End StreamerMore.

Lemma extract_member_streaming_round_trip_witness :
  let dest_path := tmp_out ++ [u "data.bin"] in
  let run := @extract_member_streaming ExactFloat user_process one_chunk_tar
               (plain_info (u "data.bin") REGTYPE []) dest_path empty_world default_monitor in
  run = (Ok tt, run.1.2, run.2)
  /\ w_files run.1.2 !! dest_path = Some [Init.Byte.x41; Init.Byte.x42]
  /\ @ExtractionMonitor._member_bytes ExactFloat run.2 = 2.
Proof.
  intros dest_path run.
  assert (run = (Ok tt, run.1.2, run.2)) as Hrun by (vm_compute; reflexivity).
  split; [exact Hrun|].
  destruct (@extract_member_streaming_round_trip ExactFloat user_process one_chunk_tar
              (plain_info (u "data.bin") REGTYPE []) dest_path empty_world default_monitor
              [Ok [Init.Byte.x41; Init.Byte.x42]] run.1.2 run.2 eq_refl Hrun)
    as (Hfile & Hmem & _).
  split; [exact Hfile | exact Hmem].
Defined.

Section StreamerFrame.
Context `{PyFloat}.


End StreamerFrame.


(** ** The pre-scan, further *)

Lemma count_loop_reads (nexts : list (Result TarInfo)) (count max_files : Z) (f : FileObj) :
  (f_headers_read (count_loop nexts count max_files f).2
   <= f_headers_read f + (1 + Z.to_nat (max_files - count)))%nat
  /\ (f_headers_read (count_loop nexts count max_files f).2
      <= f_headers_read f + length nexts)%nat.
Proof.
  revert count f; induction nexts as [|[member|e] nexts IH]; intros count f; simpl;
    [lia | | lia].
  destruct (Z.ltb_spec max_files (count + 1)); simpl; [lia|].
  destruct (IH (count + 1) (read_header f)) as [Hmax Hlen]. simpl in Hmax, Hlen.
  split; [|lia].
  replace (Z.to_nat (max_files - count)) with (S (Z.to_nat (max_files - (count + 1)))) by lia.
  lia.
Qed.

(** X9.  However long the archive, [pre_scan_file_count] reads at most
    [max_files + 1] headers (one header when [max_files] is negative), and
    never more headers than the archive has. *)
Theorem pre_scan_file_count_bounded_reads (sc : Scan) (fileobj : FileObj) (max_files : Z) :
  (f_headers_read (pre_scan_file_count sc fileobj max_files).2
   <= f_headers_read fileobj + (1 + Z.to_nat max_files))%nat
  /\ (f_headers_read (pre_scan_file_count sc fileobj max_files).2
      <= f_headers_read fileobj + length (scan_next sc))%nat.
Proof.
  unfold pre_scan_file_count.
  destruct (scan_open sc); simpl; [lia|].
  pose proof (count_loop_reads (scan_next sc) 0 max_files fileobj) as Hreads.
  rewrite Z.sub_0_r in Hreads.
  destruct (count_loop (scan_next sc) 0 max_files fileobj) as [body f]. simpl in *.
  done.
Qed.

(** X10.  [pre_scan_file_count] never lets an error of the reader through:
    what it raises is not [TarError], [EOFError] or [OSError]. *)
Theorem pre_scan_file_count_hides_reader_errors (sc : Scan) (fileobj : FileObj)
    (max_files : Z) (e : Exc) :
  (pre_scan_file_count sc fileobj max_files).1 = Raise e ->
  is_reader_error e = false.
Proof.
  unfold pre_scan_file_count.
  destruct (match scan_open sc with Some _ => _ | None => _ end) as [outcome f].
  simpl. destruct outcome as [|exc context]; [done|].
  destruct (is_reader_error exc) eqn:Hexc.
  - destruct context as [[]|]; by intros [= <-].
  - by intros [= <-].
Qed.

Lemma pre_scan_file_count_hides_reader_errors_witness :
  let h := plain_info (u "f") REGTYPE [] in
  let sc := {| scan_open := None; scan_next := [Ok h; Raise OSError]; scan_exit := None |} in
  let f := {| f_pos := 0; f_headers_read := 0 |} in
  (pre_scan_file_count sc f 10).1 = Raise MalformedArchiveError
  /\ is_reader_error MalformedArchiveError = false.
Proof.
  intros h sc f. split; [reflexivity|].
  apply (pre_scan_file_count_hides_reader_errors sc f 10). reflexivity.
Defined.

(** ** Chains of symbolic links *)

Section ChainFacts.
Context `{Unicode} `{PathOracle}.

Lemma resolve_raises (w : World) (p : Path) (e : Exc) :
  resolve w p = Raise e -> is_path_error e.
Proof.
  unfold resolve, is_path_error. repeat case_match; intros [= <-]; auto.
Qed.

Lemma resolve_or_raw_raises (w : World) (p : Path) (e : Exc) :
  resolve_or_raw w p = Raise e -> e = RuntimeError \/ e = ValueError.
Proof.
  unfold resolve_or_raw.
  destruct (resolve w p) as [real|e0] eqn:Hres; [done|].
  apply resolve_raises in Hres as [-> | [-> | ->]]; [done | |]; intros [= <-]; auto.
Qed.

Lemma is_symlink_raises (w : World) (p : Path) (e : Exc) :
  is_symlink w p = Raise e -> e = OSError.
Proof. unfold is_symlink. repeat case_match; by intros [= <-]. Qed.

Lemma chain_hop_raises (w : World) (p : Path) (e : Exc) :
  chain_hop w p = Raise e -> is_path_error e.
Proof.
  unfold chain_hop. destruct (os_readlink w p); [apply resolve_raises|].
  intros [= <-]. by left.
Qed.

Lemma follow_chain_ok (w : World) (base current : Path) (hops : nat) :
  follow_chain w base current hops = Ok tt
  <-> exists rest,
        is_chain w current rest /\ (length rest < hops)%nat
        /\ Forall (fun p => inside base p = true) rest.
Proof.
  revert current; induction hops as [|hops IH]; intros current; simpl.
  - split; [done | intros (rest & _ & Hlen & _); lia].
  - destruct (is_symlink w current) as [[]|e] eqn:Hsym.
    + assert (forall r : Result unit,
                (forall next, chain_hop w current = Ok next -> False) ->
                r <> Ok tt ->
                r = Ok tt
                <-> exists rest,
                      is_chain w current rest /\ (length rest < S hops)%nat
                      /\ Forall (fun p => inside base p = true) rest) as Hnone.
      { intros r Hno Hr. split; [done|].
        intros ([|next rest] & Hchain & _); simpl in Hchain; [congruence|].
        destruct Hchain as (_ & Hhop & _). by apply Hno in Hhop. }
      destruct (os_readlink w current) as [link_target|] eqn:Hread.
      2:{ apply Hnone; [|done]. unfold chain_hop. by rewrite Hread. }
      destruct (resolve w (path_join (path_parent current) link_target))
        as [current'|e] eqn:Hreal.
      2:{ apply Hnone; [|done]. unfold chain_hop. rewrite Hread, Hreal. done. }
      assert (chain_hop w current = Ok current') as Hhop'
        by (unfold chain_hop; by rewrite Hread).
      destruct (inside base current') eqn:Hin; simpl.
      * rewrite IH. split.
        -- intros (rest & Hchain & Hlen & Hall). exists (current' :: rest). simpl.
           split; [done|]. split; [lia|]. by constructor.
        -- intros ([|next rest] & Hchain & Hlen & Hall); simpl in Hchain; [congruence|].
           destruct Hchain as (_ & Hhop & Hchain).
           rewrite Hhop' in Hhop. injection Hhop as <-.
           apply Forall_cons in Hall as [_ Hall]. exists rest. simpl in Hlen.
           split; [done|]. split; [lia | done].
      * split; [done|].
        intros ([|next rest] & Hchain & Hlen & Hall); simpl in Hchain; [congruence|].
        destruct Hchain as (_ & Hhop & _).
        rewrite Hhop' in Hhop. injection Hhop as <-.
        apply Forall_cons in Hall as [Hin' _]. congruence.
    + split; [|done]. intros _. exists []. simpl. split; [done|]. split; [lia | done].
    + split; [done|].
      intros ([|next rest] & Hchain & _); simpl in Hchain; [congruence|].
      destruct Hchain as (Hs & _). congruence.
Qed.

(** X11.  [verify_symlink_chain] accepts a symbolic link exactly when no
    call it makes raises anything but an [OSError] of the first
    resolution, and: the base directory resolves; the target of the link,
    taken relative to the directory of the link and resolved (or left as it
    is where the resolution raised [OSError]), lies inside the base
    directory; the chain of links that starts there ends at a path that is
    no link after fewer than [max_follow] hops, every one of which lands
    inside the base directory.  A target that holds a NUL is not among
    them: it ends the call with the [ValueError] of [Path.resolve()]. *)
Theorem verify_symlink_chain_accepts (w : World) (base_dir symlink_path : Path)
    (symlink_target : str) (max_follow : nat) :
  (verify_symlink_chain w base_dir symlink_path symlink_target max_follow = Ok tt
   <-> exists base current rest,
         resolve w base_dir = Ok base
         /\ resolve_or_raw w (path_join (path_parent symlink_path) symlink_target)
            = Ok current
         /\ inside base current = true
         /\ is_chain w current rest
         /\ (length rest < max_follow)%nat
         /\ Forall (fun p => inside base p = true) rest)
  /\ (forall base,
        resolve w base_dir = Ok base ->
        contains_char NUL
          (path_str (path_join (path_parent symlink_path) symlink_target)) = true ->
        verify_symlink_chain w base_dir symlink_path symlink_target max_follow
        = Raise ValueError).
Proof.
  unfold verify_symlink_chain. split.
  - destruct (resolve w base_dir) as [base|e].
    2:{ split; [done | by intros (? & ? & ? & ? & _)]. }
    destruct (resolve_or_raw w _) as [current|e] eqn:Hcur.
    2:{ split; [done | by intros (? & ? & ? & _ & ? & _)]. }
    destruct (inside base current) eqn:Hin; simpl.
    + rewrite follow_chain_ok. split.
      * intros (rest & Hchain & Hlen & Hall). by exists base, current, rest.
      * intros (base' & current' & rest & [= <-] & [= <-] & _ & Hchain & Hlen & Hall).
        by exists rest.
    + split; [done|].
      intros (base' & current' & rest & [= <-] & [= <-] & Hin' & _). congruence.
  - intros base -> Hnul. unfold resolve_or_raw, resolve. by rewrite Hnul.
Qed.

(** X12.  A chain of links that never leaves a set of links inside the
    base directory, a loop for one, is never accepted, however large
    [max_follow] is.  The walk gives up with [UnsafeEntryError] when it
    runs out of hops; otherwise it ends with the exception of the call that
    raised: [RuntimeError] where [Path.resolve()] raises on the loop,
    [ValueError] or [OSError]. *)
Theorem verify_symlink_chain_refuses_loops (w : World) (base_dir base symlink_path : Path)
    (symlink_target : str) (max_follow : nat) (links : Path -> Prop) :
  resolve w base_dir = Ok base ->
  (forall p, links p ->
     is_symlink w p <> Ok false
     /\ forall q, chain_hop w p = Ok q -> inside base q = true /\ links q) ->
  (forall current,
     resolve_or_raw w (path_join (path_parent symlink_path) symlink_target) = Ok current ->
     inside base current = true /\ links current) ->
  verify_symlink_chain w base_dir symlink_path symlink_target max_follow
  = Raise (UnsafeEntryError "Symlink chain exceeds maximum depth")
  \/ exists e,
       verify_symlink_chain w base_dir symlink_path symlink_target max_follow = Raise e
       /\ is_path_error e.
Proof.
  intros Hbase Hclosed Hstart. unfold verify_symlink_chain. rewrite Hbase.
  destruct (resolve_or_raw w _) as [current|e] eqn:Hcur.
  2:{ right. exists e. split; [done|].
      apply resolve_or_raw_raises in Hcur as [-> | ->]; unfold is_path_error; auto. }
  destruct (Hstart current eq_refl) as [Hin Hlinks]. rewrite Hin. simpl.
  clear Hcur Hstart Hin. revert current Hlinks.
  induction max_follow as [|n IH]; intros current Hcur; simpl; [by left|].
  destruct (Hclosed current Hcur) as [Hsym Hhop].
  destruct (is_symlink w current) as [[]|e] eqn:Hs; [|done|].
  2:{ right. exists e. split; [done|]. apply is_symlink_raises in Hs as ->. by left. }
  unfold chain_hop in Hhop.
  destruct (os_readlink w current) as [link_target|].
  2:{ right. exists OSError. split; [done | by left]. }
  destruct (resolve w (path_join (path_parent current) link_target)) as [q|e] eqn:Hq.
  2:{ right. exists e. split; [done|]. by eapply resolve_raises. }
  destruct (Hhop q eq_refl) as [Hinq Hlq]. rewrite Hinq. simpl. by apply IH.
Qed.
End ChainFacts.

Lemma verify_symlink_chain_accepts_witness :
  @verify_symlink_chain PlainDisk empty_world tmp_out (tmp_out ++ [u "link"])
    (u "target.txt") 10 = Ok tt.
Proof.
  apply (proj1 (@verify_symlink_chain_accepts PlainDisk empty_world tmp_out
                  (tmp_out ++ [u "link"]) (u "target.txt") 10)).
  exists tmp_out, (tmp_out ++ [u "target.txt"]), [].
  split; [reflexivity|]. split; [reflexivity|]. split; [reflexivity|].
  split; [reflexivity|]. split; [simpl; lia | constructor].
Defined.

Lemma verify_symlink_chain_refuses_loops_witness :
  let unresolved := @verify_symlink_chain (LoopDisk false) empty_world tmp_out
                      (tmp_out ++ [u "entry"]) (u "loop") 10 in
  let raising := @verify_symlink_chain (LoopDisk true) empty_world tmp_out
                   (tmp_out ++ [u "entry"]) (u "loop") 10 in
  unresolved = Raise (UnsafeEntryError "Symlink chain exceeds maximum depth")
  /\ raising = Raise RuntimeError
  /\ (raising = Raise (UnsafeEntryError "Symlink chain exceeds maximum depth")
      \/ exists e, raising = Raise e /\ is_path_error e).
Proof.
  intros unresolved raising. split; [reflexivity|]. split; [reflexivity|].
  apply (@verify_symlink_chain_refuses_loops (LoopDisk true) empty_world tmp_out tmp_out
           (tmp_out ++ [u "entry"]) (u "loop") 10 (fun p => p = loop_link)).
  - reflexivity.
  - intros p ->. split; [by vm_compute|]. intros q Hq. by vm_compute in Hq.
  - intros current Hc. by vm_compute in Hc.
Defined.

Example verify_symlink_chain_embedded_nul :
  @verify_symlink_chain PlainDisk empty_world tmp_out (tmp_out ++ [u "link"])
    (u "target" ++ [NUL] ++ u ".txt") 10
  = Raise ValueError.
Proof. reflexivity. Qed.

Example verify_symlink_chain_escape :
  @verify_symlink_chain PlainDisk empty_world tmp_out (tmp_out ++ [u "escape_link"])
    (u "/etc/passwd") 10
  = Raise (UnsafeEntryError "Symlink target escapes extraction root").
Proof. reflexivity. Qed.

(** ** Runs of [extractall], further *)

Lemma extract_member_streaming_calls `{PyFloat} (P : Event -> Prop) (proc : Process)
    (tf : TarFile) (info : TarInfo) (dest_path : Path) (w : World) m r w' m' :
  (forall e, file_call e -> P e) ->
  extract_member_streaming proc tf info dest_path w m = (r, w', m') ->
  extends P w w'.
Proof.
  intros HP. unfold extract_member_streaming. intros Hrun.
  pose proof (extends_randint P w) as H0.
  destruct (randint w) as [rnd w0]. simpl in H0.
  set (temp_path := temp_path_of proc rnd dest_path) in *.
  destruct (streaming_body tf info dest_path temp_path w0 _) as [[r1 w1] m1] eqn:Hbody.
  assert (extends P w0 w1) as H1.
  { eapply streaming_body_extends; [| | | | | exact Hbody]; intros; by apply HP. }
  assert (extends P w1 (suppress_OSError (unlink_missing_ok temp_path) w1).2) as H2.
  { apply extends_suppress. by apply HP. }
  destruct (suppress_OSError (unlink_missing_ok temp_path) w1) as [r2 w2]. simpl in H2.
  destruct r1 as [[]|exc].
  - injection Hrun as <- <- <-. eauto using extends_trans.
  - destruct exc; injection Hrun as <- <- <-; eauto using extends_trans.
Qed.

Section RunCalls.
Context `{Unicode} `{PathOracle} `{PyFloat}.
Import SafeTarFile.

Lemma _apply_metadata_calls (P : Event -> Prop) (self : t) (proc : Process)
    (info : TarInfo) (dest_path : Path) (w : World) :
  (forall e, metadata_call self info e -> P e) ->
  extends P w (_apply_metadata self proc info dest_path w).
Proof.
  intros HP. unfold _apply_metadata.
  set (w1 := if _preserve_ownership self then _ else w).
  set (w2 := match ti_mode info with Some _ => _ | None => w1 end).
  assert (extends P w w1) as Hw1.
  { subst w1. destruct (_preserve_ownership self) eqn:Hown; [|apply extends_refl].
    simpl. apply extends_suppress, HP. simpl. by rewrite Hown. }
  assert (extends P w1 w2) as Hw2.
  { subst w2. destruct (ti_mode info) as [m|] eqn:Hmode; [|apply extends_refl].
    apply extends_suppress, HP. simpl. rewrite Hmode. eauto. }
  eapply extends_trans; [by eapply extends_trans|].
  apply extends_suppress, HP. done.
Qed.

(** One member: the calls made, and what becomes of the extracted set and
    of the two queues. *)
Lemma _extract_one_inner_calls (P : Event -> Prop) (self : t) (proc : Process)
    (info : TarInfo) (base_dir : Path) (st : RunState) r st' :
  (forall e, file_call e -> P e) ->
  (forall e, metadata_call self info e -> P e) ->
  _extract_one_inner self proc info base_dir st = (r, st') ->
  extends P (world st) (world st')
  /\ extracted_paths st ⊆ extracted_paths st'
  /\ (is_ok r = false ->
      extracted_paths st' = extracted_paths st
      /\ deferred_symlinks st' = deferred_symlinks st
      /\ deferred_dirs st' = deferred_dirs st)
  /\ (is_deferred self info = true -> extracted_paths st' = extracted_paths st).
Proof.
  intros Hfile Hmeta. unfold _extract_one_inner, is_deferred. intros Hrun.
  destruct (validate_entry_type info _ _ _) as [disposition|e].
  2:{ injection Hrun as <- <-. split; [apply extends_refl | done]. }
  destruct (String.eqb disposition "skip") eqn:Hskip.
  { injection Hrun as <- <-. split; [apply extends_refl | done]. }
  destruct (validate_filename info) as [name|e].
  2:{ injection Hrun as <- <-. split; [apply extends_refl | done]. }
  destruct (validate_pax_path info) as [pax_path|e].
  2:{ injection Hrun as <- <-. split; [apply extends_refl | done]. }
  destruct (resolve_member_path (world st) base_dir name) as [dest|e].
  2:{ injection Hrun as <- <-. split; [apply extends_refl | done]. }
  match type of Hrun with
  | match ?c with _ => _ end = _ => destruct c as [[]|e]
  end.
  2:{ injection Hrun as <- <-. split; [apply extends_refl | done]. }
  destruct (String.eqb disposition "defer_symlink") eqn:Hdefer.
  { injection Hrun as <- <-. simpl. split; [apply extends_refl | done]. }
  destruct (isdir info).
  { unfold on_world in Hrun.
    destruct (mkdir_parents dest (world st)) as [[[]|e] w1] eqn:Hmk;
      injection Hrun as <- <-; simpl;
      (split; [eapply extends_syscall; [exact Hmk | by apply Hfile]|]).
    - split; [apply union_subseteq_l | done].
    - done. }
  destruct (islnk info).
  { destruct (verify_hardlink_target _ _ _ _ _) as [target_path|e].
    2:{ injection Hrun as <- <-. split; [apply extends_refl | done]. }
    unfold on_world in Hrun. simpl in Hrun.
    destruct (mkdir_parents (path_parent dest) (world st)) as [[[]|e] w1] eqn:Hmk;
      (assert (extends P (world st) w1) as Hw1
         by (eapply extends_syscall; [exact Hmk | by apply Hfile])); simpl in Hrun.
    2:{ injection Hrun as <- <-. simpl. done. }
    destruct (os_link target_path dest w1) as [[[]|e] w2] eqn:Hlink;
      (assert (extends P w1 w2) as Hw2
         by (eapply extends_syscall; [exact Hlink | by apply Hfile]));
      injection Hrun as <- <-; simpl;
      (split; [by eapply extends_trans|]).
    - split; [apply union_subseteq_l | done].
    - done. }
  destruct (extract_member_streaming proc (_tf self) info dest (world st) (monitor st))
    as [[[[]|e] w1] m1] eqn:Hstream;
    (apply (extract_member_streaming_calls P) in Hstream as Hw1; [|done]);
    injection Hrun as <- <-; simpl.
  - split; [|split; [apply union_subseteq_l | done]].
    eapply extends_trans; [exact Hw1|]. by apply _apply_metadata_calls.
  - done.
Qed.
End RunCalls.

Section RunCallsMore.
Context `{Unicode} `{PathOracle} `{PyFloat}.
Import SafeTarFile.

Lemma extractall_unfold (self : t) (proc : Process) (p : Path)
    (members : option (list (str + TarInfo))) (w : World) :
  extractall self proc (Some p) members w
  = match realpath w p with
    | None => (Raise OSError, w)
    | Some base_dir =>
        match mkdir_parents base_dir w with
        | (Raise e, w0) => (Raise e, w0)
        | (Ok _, w0) =>
            match selected self members with
            | Raise e => (Raise e, w0)
            | Ok infos =>
                match extract_members self proc infos base_dir (initial_state self w0) with
                | (Raise e, st) => (Raise e, world st)
                | (Ok _, st) =>
                    match create_symlinks base_dir (deferred_symlinks st) (world st) with
                    | (Raise e, w2) => (Raise e, w2)
                    | (Ok _, w2) =>
                        (Ok tt, apply_deferred_dirs self proc (deferred_dirs st) w2)
                    end
                end
            end
        end
    end.
Proof. reflexivity. Qed.

Lemma _extract_one_calls (P : Event -> Prop) (self : t) (proc : Process)
    (info : TarInfo) (base_dir : Path) (st : RunState) r st' :
  (forall e, not_metadata e -> P e) ->
  (forall e, metadata_call self info e -> P e) ->
  _extract_one self proc info base_dir st = (r, st') ->
  extends P (world st) (world st').
Proof.
  intros Hplain Hmeta. unfold _extract_one. intros Hrun.
  destruct (_extract_one_inner self proc info base_dir st) as [r1 st1] eqn:Hinner.
  apply (_extract_one_inner_calls P) in Hinner as [Hw1 _]; [|intros e He; apply Hplain; by destruct e|done].
  destruct r1 as [[]|e].
  - injection Hrun as <- <-. simpl.
    eapply extends_trans; [exact Hw1|]. apply extends_log. by apply Hplain.
  - destruct (is_SafetarError e); injection Hrun as <- <-; simpl; [|done].
    eapply extends_trans; [exact Hw1|]. unfold _fire_event.
    destruct (_on_security_event self); [|apply extends_refl].
    apply extends_log. by apply Hplain.
Qed.

Lemma extract_members_calls (P : Event -> Prop) (self : t) (proc : Process)
    (infos : list TarInfo) (base_dir : Path) (st : RunState) r st' :
  (forall e, not_metadata e -> P e) ->
  (forall info e, metadata_call self info e -> P e) ->
  extract_members self proc infos base_dir st = (r, st') ->
  extends P (world st) (world st').
Proof.
  intros Hplain Hmeta. revert st; induction infos as [|info infos IH]; intros st Hrun;
    simpl in Hrun.
  - injection Hrun as <- <-. apply extends_refl.
  - destruct (_extract_one self proc info base_dir st) as [r1 st1] eqn:Hone.
    apply (_extract_one_calls P) in Hone; [|done|by apply Hmeta].
    destruct r1 as [[]|e].
    + eapply extends_trans; [exact Hone | by apply IH].
    + by injection Hrun as <- <-.
Qed.

Lemma create_symlinks_calls (P : Event -> Prop) (base_dir : Path)
    (ds : list (Path * str)) (w : World) r w' :
  (forall e, symlink_phase e -> P e) ->
  create_symlinks base_dir ds w = (r, w') ->
  extends P w w'.
Proof.
  intros Hplain. revert w; induction ds as [|[sym_path sym_target] ds IH]; intros w Hrun;
    simpl in Hrun.
  - injection Hrun as <- <-. apply extends_refl.
  - destruct (verify_symlink_chain w base_dir sym_path sym_target 10) as [[]|e];
      [|injection Hrun as <- <-; apply extends_refl].
    destruct (mkdir_parents (path_parent sym_path) w) as [[[]|e] w1] eqn:Hmk;
      (assert (extends P w w1) as Hw1
         by (eapply extends_syscall; [exact Hmk | by apply Hplain]));
      [|by injection Hrun as <- <-].
    destruct (os_symlink sym_target sym_path w1) as [[[]|e] w2] eqn:Hsl;
      (assert (extends P w1 w2) as Hw2
         by (eapply extends_syscall; [exact Hsl | by apply Hplain])).
    + eapply extends_trans; [exact Hw1|]. eapply extends_trans; [exact Hw2 | by apply IH].
    + injection Hrun as <- <-. by eapply extends_trans.
Qed.

Lemma apply_deferred_dirs_calls (P : Event -> Prop) (self : t) (proc : Process)
    (l : list (TarInfo * Path)) (w : World) :
  (forall p, P (EvDirMetadata p)) ->
  (forall info e, metadata_call self info e -> P e) ->
  extends P w (apply_deferred_dirs self proc l w).
Proof.
  intros Hplain Hmeta. revert w; induction l as [|[dir_info dir_path] l IH]; intros w; simpl.
  - apply extends_refl.
  - set (w1 := log (EvDirMetadata dir_path) true w).
    assert (extends P w w1) as Hw1 by (apply extends_log; apply Hplain).
    assert (extends P w1 (_apply_metadata self proc dir_info dir_path w1)) as Hw2
      by (apply _apply_metadata_calls; by apply Hmeta).
    eapply extends_trans; [exact Hw1|]. eapply extends_trans; [exact Hw2 | apply IH].
Qed.

Lemma extractall_calls (P : Event -> Prop) (self : t) (proc : Process) (path : option Path)
    (members : option (list (str + TarInfo))) (w : World) :
  (forall e, not_metadata e -> P e) ->
  (forall info e, metadata_call self info e -> P e) ->
  extends P w (extractall self proc path members w).2.
Proof.
  intros Hplain Hmeta. destruct path as [p|]; [|apply extends_refl].
  rewrite extractall_unfold.
  destruct (realpath w p) as [base_dir|]; [|apply extends_refl].
  destruct (mkdir_parents base_dir w) as [[[]|e] w0] eqn:Hmk;
    (assert (extends P w w0) as Hw0
       by (eapply extends_syscall; [exact Hmk | by apply Hplain])); [|done].
  destruct (selected self members) as [infos|e]; [|done].
  destruct (extract_members self proc infos base_dir (initial_state self w0))
    as [r1 st1] eqn:Hrun1.
  apply (extract_members_calls P) in Hrun1; [|done|done]. simpl in Hrun1.
  destruct r1 as [[]|e]; simpl; [|by eapply extends_trans].
  destruct (create_symlinks base_dir (deferred_symlinks st1) (world st1)) as [r2 w2] eqn:Hrun2.
  apply (create_symlinks_calls P) in Hrun2; [|intros e He; apply Hplain; by destruct e].
  destruct r2 as [[]|e]; simpl; [|eauto using extends_trans].
  eapply extends_trans; [exact Hw0|]. eapply extends_trans; [exact Hrun1|].
  eapply extends_trans; [exact Hrun2|].
  apply apply_deferred_dirs_calls; [intros q; by apply Hplain | done].
Qed.

(** X13.  In any run of [extractall], [os.chown] is called only when
    [preserve_ownership] is set; with [strip_special_bits] no [os.chmod]
    passes a setuid, setgid or sticky bit, and with [strip_write_bits] none
    passes a write bit. *)
Theorem extractall_sanitises_metadata (self : t) (proc : Process) (path : option Path)
    (members : option (list (str + TarInfo))) (w : World) :
  extends (sanitised_call self) w (extractall self proc path members w).2.
Proof.
  apply extractall_calls.
  - intros e He. by destruct e.
  - intros info e He. destruct e; simpl in *; try done; [tauto|].
    destruct He as (m & _ & ->). split.
    + intros ->. unfold sanitise_mode, S_ISUID, S_ISGID, S_ISVTX, S_IWUSR, S_IWGRP, S_IWOTH.
      destruct (_strip_write_bits self); rewrite <- ?Z.land_assoc; simpl Z.land;
        rewrite ?Z.land_0_r; done.
    + intros ->. unfold sanitise_mode, S_ISUID, S_ISGID, S_ISVTX, S_IWUSR, S_IWGRP, S_IWOTH.
      destruct (_strip_special_bits self); rewrite <- ?Z.land_assoc; simpl Z.land;
        rewrite ?Z.land_0_r; done.
Qed.
End RunCallsMore.

Lemma callback_at_end_prepend (r : Result unit) (t1 t2 : list (Event * bool)) :
  Forall (fun x => not_callback x.1) t1 ->
  callback_at_end r t2 -> callback_at_end r (t1 ++ t2).
Proof.
  intros H1 [H2 | (e & tr0 & ty & ok & Hr & He & -> & H0)].
  - left. by apply Forall_app.
  - right. exists e, (t1 ++ tr0), ty, ok. rewrite <- app_assoc.
    split; [done|]. split; [done|]. split; [done|]. by apply Forall_app.
Qed.

Lemma members_done_none (t : list (Event * bool)) :
  Forall (fun x => not_member x.1) t -> members_done t = [].
Proof.
  induction 1 as [|[e ok] t He _ IH]; [done|].
  rewrite members_done_cons, IH. by destruct e.
Qed.

Section RunOrder.
Context `{Unicode} `{PathOracle} `{PyFloat}.
Import SafeTarFile.

Lemma _extract_one_callback (self : t) (proc : Process) (info : TarInfo)
    (base_dir : Path) (st : RunState) r st' :
  _extract_one self proc info base_dir st = (r, st') ->
  exists tr, w_trace (world st') = w_trace (world st) ++ tr /\ callback_at_end r tr.
Proof.
  unfold _extract_one. intros Hrun.
  destruct (_extract_one_inner self proc info base_dir st) as [r1 st1] eqn:Hinner.
  apply (_extract_one_inner_calls (fun e => not_callback e)) in Hinner
    as [(tr1 & Htr1 & Hno) _];
    [|intros e He; by destruct e|intros e He; by destruct e].
  destruct r1 as [[]|e].
  - injection Hrun as <- <-. simpl. exists (tr1 ++ [(EvMember (ti_name info), true)]).
    rewrite Htr1, <- app_assoc. split; [done|]. left.
    apply Forall_app. split; [done | by apply Forall_singleton].
  - destruct (is_SafetarError e) eqn:He; injection Hrun as <- <-; simpl.
    + unfold _fire_event. destruct (_on_security_event self) as [returns|].
      * exists (tr1 ++ [(EvCallback (_event_type_for info), returns)]). simpl.
        rewrite Htr1, <- app_assoc. split; [done|]. right.
        by exists e, tr1, (_event_type_for info), returns.
      * exists tr1. split; [done | by left].
    + exists tr1. split; [done | by left].
Qed.

Lemma extract_members_callback (self : t) (proc : Process) (infos : list TarInfo)
    (base_dir : Path) (st : RunState) r st' :
  extract_members self proc infos base_dir st = (r, st') ->
  exists tr, w_trace (world st') = w_trace (world st) ++ tr /\ callback_at_end r tr.
Proof.
  revert st; induction infos as [|info infos IH]; intros st Hrun; simpl in Hrun.
  - injection Hrun as <- <-. exists []. rewrite app_nil_r. split; [done | by left].
  - destruct (_extract_one self proc info base_dir st) as [r1 st1] eqn:Hone.
    apply _extract_one_callback in Hone as (tr1 & Htr1 & Hcb1).
    destruct r1 as [[]|e].
    + apply IH in Hrun as (tr2 & Htr2 & Hcb2). exists (tr1 ++ tr2).
      rewrite Htr2, Htr1, <- app_assoc. split; [done|].
      apply callback_at_end_prepend; [|done].
      by destruct Hcb1 as [Hno | (e & ? & ? & ? & ? & _)].
    + injection Hrun as <- <-. by exists tr1.
Qed.

(** X14.  In a run of [extractall] the callback [on_security_event] is
    called at most once; when it is called, nothing is done after it and
    the run ends with the [SafetarError] of the member that was refused,
    whether the callback returns or raises. *)
Theorem extractall_callback_at_end (self : t) (proc : Process) (path : option Path)
    (members : option (list (str + TarInfo))) (w : World) :
  exists tr,
    w_trace (extractall self proc path members w).2 = w_trace w ++ tr
    /\ callback_at_end (extractall self proc path members w).1 tr.
Proof.
  destruct path as [p|];
    [|exists []; simpl; rewrite app_nil_r; split; [done | by left]].
  rewrite extractall_unfold.
  destruct (realpath w p) as [base_dir|];
    [|exists []; simpl; rewrite app_nil_r; split; [done | by left]].
  unfold mkdir_parents.
  destruct (syscall_outcome (EvMkdir base_dir) id w) as (ok0 & Hr0 & Ht0 & _).
  destruct (syscall (EvMkdir base_dir) id w) as [r0 w0]. simpl in Hr0, Ht0. subst r0.
  assert (Forall (fun x : Event * bool => not_callback x.1) [(EvMkdir base_dir, ok0)])
    as Hmk by (by apply Forall_singleton).
  destruct ok0; [|eexists; split; [exact Ht0 | by left]].
  destruct (selected self members) as [infos|e];
    [|eexists; split; [exact Ht0 | by left]].
  destruct (extract_members self proc infos base_dir (initial_state self w0))
    as [r1 st1] eqn:Hrun1.
  apply extract_members_callback in Hrun1 as (tr1 & Htr1 & Hcb1). simpl in Htr1.
  destruct r1 as [[]|e]; simpl.
  2:{ exists ([(EvMkdir base_dir, true)] ++ tr1). rewrite Htr1, Ht0, <- app_assoc.
      split; [done|]. by apply callback_at_end_prepend. }
  assert (Forall (fun x : Event * bool => not_callback x.1) tr1) as Hno1.
  { by destruct Hcb1 as [Hno | (e & ? & ? & ? & ? & _)]. }
  destruct (create_symlinks base_dir (deferred_symlinks st1) (world st1)) as [r2 w2] eqn:Hrun2.
  apply (create_symlinks_calls (fun e => not_callback e)) in Hrun2 as (tr2 & Htr2 & Hno2);
    [|intros e He; by destruct e].
  destruct r2 as [[]|e]; simpl.
  - destruct (apply_deferred_dirs_calls (fun e => not_callback e) self proc
                (deferred_dirs st1) w2) as (tr3 & Htr3 & Hno3);
      [done | intros info e He; by destruct e|].
    exists ([(EvMkdir base_dir, true)] ++ tr1 ++ tr2 ++ tr3).
    rewrite Htr3, Htr2, Htr1, Ht0, <- !app_assoc. split; [done|]. left.
    repeat (apply Forall_app; split; [done|]). done.
  - exists ([(EvMkdir base_dir, true)] ++ tr1 ++ tr2).
    rewrite Htr2, Htr1, Ht0, <- !app_assoc. split; [done|]. left.
    repeat (apply Forall_app; split; [done|]). done.
Qed.

Lemma extract_members_order (self : t) (proc : Process) (infos : list TarInfo)
    (base_dir : Path) (st : RunState) r st' :
  extract_members self proc infos base_dir st = (r, st') ->
  exists tr k,
    w_trace (world st') = w_trace (world st) ++ tr
    /\ members_done tr = List.map ti_name (take k infos)
    /\ (k <= length infos)%nat
    /\ (is_ok r = true -> k = length infos)
    /\ (is_ok r = false -> (k < length infos)%nat).
Proof.
  revert st; induction infos as [|info infos IH]; intros st Hrun; simpl in Hrun.
  - injection Hrun as <- <-. exists [], 0%nat. rewrite app_nil_r. simpl.
    repeat split; done.
  - destruct (_extract_one self proc info base_dir st) as [r1 st1] eqn:Hone.
    apply (_extract_one_step self proc) in Hone as (tr1 & Htr1 & _ & Hdone1 & _).
    destruct r1 as [[]|e].
    + apply IH in Hrun as (tr2 & k & Htr2 & Hdone2 & Hk & Hok & Hfail).
      exists (tr1 ++ tr2), (S k). rewrite Htr2, Htr1, <- app_assoc.
      split; [done|]. rewrite members_done_app, Hdone1, Hdone2. simpl.
      split; [done|]. split; [lia|]. split; [intros Hr; by rewrite Hok | intros Hr].
      apply Hfail in Hr. lia.
    + injection Hrun as <- <-. exists tr1, 0%nat. simpl in *.
      split; [done|]. split; [done|]. split; [lia|]. split; [done | lia].
Qed.

(** X15.  [extractall] takes the selected members in order and stops at
    the first one that raises: the members processed without an exception
    are the first [k] of the selection, and when [k] is not all of them the
    call did raise. *)
Theorem extractall_members_in_order (self : t) (proc : Process) (path : option Path)
    (members : option (list (str + TarInfo))) (w : World) (infos : list TarInfo) :
  selected self members = Ok infos ->
  exists tr k,
    w_trace (extractall self proc path members w).2 = w_trace w ++ tr
    /\ members_done tr = List.map ti_name (take k infos)
    /\ (k <= length infos)%nat
    /\ ((k < length infos)%nat -> is_ok (extractall self proc path members w).1 = false)
    /\ (is_ok (extractall self proc path members w).1 = true -> k = length infos).
Proof.
  intros Hsel.
  assert (forall w' e tr0,
            w_trace w' = w_trace w ++ tr0 -> members_done tr0 = [] ->
            exists tr k,
              w_trace (@Raise unit e, w').2 = w_trace w ++ tr
              /\ members_done tr = List.map ti_name (take k infos)
              /\ (k <= length infos)%nat
              /\ ((k < length infos)%nat -> is_ok (@Raise unit e, w').1 = false)
              /\ (is_ok (@Raise unit e, w').1 = true -> k = length infos)) as Hearly.
  { intros w' e tr0 Htr Hdone. exists tr0, 0%nat. simpl.
    split; [done|]. split; [done|]. split; [lia|]. done. }
  destruct path as [p|]; [|by apply (Hearly w TypeError []); [rewrite app_nil_r|]].
  rewrite extractall_unfold.
  destruct (realpath w p) as [base_dir|];
    [|by apply (Hearly w OSError []); [rewrite app_nil_r|]].
  unfold mkdir_parents.
  destruct (syscall_outcome (EvMkdir base_dir) id w) as (ok0 & Hr0 & Ht0 & _).
  destruct (syscall (EvMkdir base_dir) id w) as [r0 w0]. simpl in Hr0, Ht0. subst r0.
  destruct ok0; [|by apply (Hearly w0 OSError [(EvMkdir base_dir, false)])].
  rewrite Hsel.
  destruct (extract_members self proc infos base_dir (initial_state self w0))
    as [r1 st1] eqn:Hrun1.
  apply extract_members_order in Hrun1 as (tr1 & k & Htr1 & Hdone1 & Hk & Hok & Hfail).
  simpl in Htr1.
  destruct r1 as [[]|e]; simpl.
  2:{ exists ([(EvMkdir base_dir, true)] ++ tr1), k. rewrite Htr1, Ht0, <- app_assoc.
      split; [done|]. rewrite members_done_app. simpl.
      split; [done|]. split; [done|]. done. }
  destruct (create_symlinks base_dir (deferred_symlinks st1) (world st1)) as [r2 w2] eqn:Hrun2.
  apply (create_symlinks_calls (fun e => not_member e)) in Hrun2 as (tr2 & Htr2 & Hno2);
    [|intros e He; by destruct e].
  apply members_done_none in Hno2.
  specialize (Hok eq_refl).
  destruct r2 as [[]|e]; simpl.
  - destruct (apply_deferred_dirs_calls (fun e => not_member e) self proc
                (deferred_dirs st1) w2) as (tr3 & Htr3 & Hno3);
      [done | intros info e He; by destruct e|].
    apply members_done_none in Hno3.
    exists ([(EvMkdir base_dir, true)] ++ tr1 ++ tr2 ++ tr3), k.
    rewrite Htr3, Htr2, Htr1, Ht0, <- !app_assoc. split; [done|].
    rewrite !members_done_app, Hno2, Hno3, Hdone1, !app_nil_r. simpl.
    split; [done|]. split; [done|]. split; [lia | done].
  - exists ([(EvMkdir base_dir, true)] ++ tr1 ++ tr2), k.
    rewrite Htr2, Htr1, Ht0, <- !app_assoc. split; [done|].
    rewrite !members_done_app, Hno2, Hdone1, !app_nil_r. simpl.
    split; [done|]. split; [done|]. done.
Qed.
End RunOrder.


Section RunEdges.
Context `{Unicode} `{PathOracle} `{PyFloat}.
Import SafeTarFile.

Lemma getmember_raises (tf : TarFile) (name : str) (e : Exc) :
  getmember tf name = Raise e -> e = KeyError.
Proof. unfold getmember. destruct (List.find _ _); [done | by intros [= <-]]. Qed.

Lemma getmember_missing (tf : TarFile) (name : str) :
  (forall i, In i (tf_members tf) -> ti_name i <> rstrip SLASH name) ->
  getmember tf name = Raise KeyError.
Proof.
  intros Hnone. unfold getmember.
  destruct (List.find _ _) as [info|] eqn:Hfind; [|done].
  apply List.find_some in Hfind as [Hin Heq].
  apply List.in_rev in Hin. apply str_eqb_eq in Heq. by apply Hnone in Hin.
Qed.

Lemma resolve_members_missing (tf : TarFile) (members : list (str + TarInfo)) (name : str) :
  In (inl name) members ->
  (forall i, In i (tf_members tf) -> ti_name i <> rstrip SLASH name) ->
  resolve_members tf members = Raise KeyError.
Proof.
  intros Hin Hnone. induction members as [|m members IH]; [done|]. simpl.
  destruct m as [n|info]; simpl.
  - destruct (getmember tf n) as [info|e] eqn:Hget; simpl.
    + destruct Hin as [[= ->] | Hin]; [by rewrite getmember_missing in Hget|].
      by rewrite IH.
    + by apply getmember_raises in Hget as ->.
  - destruct Hin as [? | Hin]; [done|]. by rewrite IH.
Qed.

(** X16.  The selection is resolved before any member is handled: when a
    name of [members], taken without its trailing slashes as [getmember]
    takes it, is borne by no member of the archive, [extractall] raises
    [KeyError] right after making the base directory ([OSError] if that
    fails), writes no file and processes no member, not even those listed
    before the unknown name. *)
Theorem extractall_unknown_member (self : t) (proc : Process) (p base_dir : Path)
    (members : list (str + TarInfo)) (name : str) (w : World) :
  In (inl name) members ->
  (forall i, In i (tf_members (_tf self)) -> ti_name i <> rstrip SLASH name) ->
  realpath w p = Some base_dir ->
  exists ok : bool,
    (extractall self proc (Some p) (Some members) w).1
    = Raise (if ok then KeyError else OSError)
    /\ w_trace (extractall self proc (Some p) (Some members) w).2
       = w_trace w ++ [(EvMkdir base_dir, ok)]
    /\ w_files (extractall self proc (Some p) (Some members) w).2 = w_files w.
Proof.
  intros Hin Hnone Hbase. rewrite extractall_unfold, Hbase. unfold mkdir_parents.
  destruct (syscall_outcome (EvMkdir base_dir) id w) as (ok0 & Hr0 & Ht0 & Hf0 & _).
  destruct (syscall (EvMkdir base_dir) id w) as [r0 w0]. simpl in Hr0, Ht0, Hf0. subst r0.
  exists ok0. destruct ok0; simpl; [|done].
  unfold selected. by rewrite (resolve_members_missing _ _ name Hin Hnone).
Qed.

(** X17.  Under the [IGNORE] policy a symbolic link is skipped before its
    name or its target is looked at: whatever they are, the member raises
    nothing and changes nothing. *)
Theorem ignored_symlink_is_skipped (self : t) (proc : Process) (info : TarInfo)
    (base_dir : Path) (st : RunState) :
  _symlink_policy self = SymlinkPolicy.IGNORE ->
  ti_type info = SYMTYPE -> _is_sparse info = false ->
  _extract_one_inner self proc info base_dir st = (Ok tt, st)
  /\ (_extract_one self proc info base_dir st).1 = Ok tt
  /\ w_files (world (_extract_one self proc info base_dir st).2) = w_files (world st).
Proof.
  intros Hpol Htype Hsparse.
  assert (_extract_one_inner self proc info base_dir st = (Ok tt, st)) as Hinner.
  { unfold _extract_one_inner, validate_entry_type. by rewrite Hsparse, Htype, Hpol. }
  split; [done|]. unfold _extract_one. by rewrite Hinner.
Qed.



(** X19.  The set of extracted paths only grows.  A member that raises
    leaves the set and both queues as they were, and a symbolic link that
    is deferred does not enter the set. *)
Theorem extracted_paths_grow (self : t) (proc : Process) (info : TarInfo)
    (base_dir : Path) (st : RunState) :
  let r := (_extract_one self proc info base_dir st).1 in
  let st' := (_extract_one self proc info base_dir st).2 in
  extracted_paths st ⊆ extracted_paths st'
  /\ (r = Ok tt
      \/ extracted_paths st' = extracted_paths st
         /\ deferred_symlinks st' = deferred_symlinks st
         /\ deferred_dirs st' = deferred_dirs st)
  /\ (is_deferred self info = false \/ extracted_paths st' = extracted_paths st).
Proof.
  unfold _extract_one.
  destruct (_extract_one_inner self proc info base_dir st) as [r1 st1] eqn:Hinner.
  apply (_extract_one_inner_calls (fun _ => True)) in Hinner
    as (_ & Hsub & Hfail & Hdef); [|done|done].
  destruct r1 as [[]|e]; simpl.
  - split; [done|]. split; [by left|].
    destruct (is_deferred self info); [right; by apply Hdef | by left].
  - destruct (Hfail eq_refl) as (He & Hs & Hd).
    destruct (is_SafetarError e); simpl; (split; [done|]); (split; [by right|]);
      by right.
Qed.
End RunEdges.

(** ** Seekable input and the archive hash *)

Lemma hash_loop_reads_all (fuel : nat) (f : BinaryFile) (h : list Init.Byte.byte) :
  (length (bf_content f) - bf_pos f < fuel)%nat ->
  (hash_loop fuel f h).1 = h ++ drop (bf_pos f) (bf_content f)
  /\ bf_content (hash_loop fuel f h).2 = bf_content f.
Proof.
  revert f h; induction fuel as [|fuel IH]; intros f h Hfuel; [lia|].
  cbn [hash_loop]. unfold bf_read.
  assert (0 < Z.to_nat 65536)%nat as Hpos by lia.
  remember (Z.to_nat 65536) as n eqn:Hn. clear Hn.
  set (rest := drop (bf_pos f) (bf_content f)).
  assert (length rest = (length (bf_content f) - bf_pos f)%nat) as Hrest
    by apply length_drop.
  destruct (decide (take n rest = [])) as [Hchunk|Hchunk];
    [rewrite (bool_decide_eq_true_2 _ Hchunk)
    | rewrite (bool_decide_eq_false_2 _ Hchunk)].
  - cbn [fst snd bf_content]. split; [|done].
    destruct rest as [|b rest']; [by rewrite app_nil_r|].
    destruct n; [lia | done].
  - destruct (IH {| bf_content := bf_content f;
                    bf_pos := bf_pos f + length (take n rest) |}
                (h ++ take n rest)) as [Hh Hc].
    { cbn [bf_content bf_pos].
      assert (length (take n rest) <> 0)%nat.
      { intros Hz. apply Hchunk. by apply length_zero_iff_nil. }
      rewrite length_take in *. lia. }
    cbn [bf_content bf_pos] in Hh, Hc. split; [|done].
    rewrite Hh, <- app_assoc. f_equal.
    transitivity (take n rest ++ drop n rest); [|apply take_drop]. f_equal.
    subst rest. rewrite drop_drop, length_take.
    destruct (decide (n <= length (drop (bf_pos f) (bf_content f)))%nat) as [Hn|Hn].
    + f_equal. lia.
    + rewrite !drop_ge; [done | lia | lia].
Qed.

(** X20.  [compute_archive_hash] hashes the bytes from the current position
    to the end of the file, whatever the number of chunks they are read in,
    gives the first 16 characters of the digest, and leaves the file where
    it was: same content, same position. *)
Theorem compute_archive_hash_restores_position `{Hashlib} (fileobj : BinaryFile) :
  compute_archive_hash fileobj
  = (take 16 (sha256_hexdigest (drop (bf_pos fileobj) (bf_content fileobj))), fileobj).
Proof.
  unfold compute_archive_hash.
  destruct (hash_loop_reads_all (S (length (bf_content fileobj))) fileobj []) as [Hh Hc];
    [lia|].
  destruct (hash_loop _ fileobj []) as [h f]. simpl in Hh, Hc. subst h.
  unfold bf_seek, bf_tell. rewrite Hc. by destruct fileobj.
Qed.

Lemma spool_loop_ok (reads : list (Result (list Init.Byte.byte)))
    (spool : list Init.Byte.byte) (total max_total_size : Z) (out : list Init.Byte.byte) :
  total <= max_total_size ->
  spool_loop reads spool total max_total_size = Ok out ->
  out = spool ++ stream_content reads
  /\ total + len (stream_content reads) <= max_total_size.
Proof.
  revert spool total; induction reads as [|[chunk|e] reads IH]; intros spool total Hle;
    simpl; unfold len in *; simpl.
  - intros [= <-]. rewrite app_nil_r. split; [done | lia].
  - case_bool_decide; [intros [= <-]; rewrite app_nil_r; simpl; split; [done | lia]|].
    destruct (Z.ltb_spec max_total_size (total + Z.of_nat (length chunk))); [done|].
    intros Hrun. apply IH in Hrun as [-> Hlen]; [|done].
    rewrite <- app_assoc, length_app. split; [done | lia].
  - done.
Qed.

Lemma spool_loop_over (reads : list (Result (list Init.Byte.byte)))
    (spool : list Init.Byte.byte) (total max_total_size : Z) :
  max_total_size < total + len (stream_content reads) ->
  total <= max_total_size ->
  spool_loop reads spool total max_total_size = Raise TotalSizeExceededError.
Proof.
  revert spool total; induction reads as [|[chunk|e] reads IH]; intros spool total Hover Hle;
    simpl in *; unfold len in *; simpl in *; [lia | | lia].
  case_bool_decide; [simpl in Hover; lia|].
  destruct (Z.ltb_spec max_total_size (total + Z.of_nat (length chunk))); [done|].
  apply IH; [|done]. rewrite length_app in Hover. lia.
Qed.

(** X21.  For a stream that cannot seek and a limit that is not negative:
    when [ensure_seekable] returns, it returns a file it owns, at position
    0, that holds exactly the bytes of the stream, and these are at most
    [max_total_size]; when the stream holds more it raises
    [TotalSizeExceededError].  A file object that can seek is returned as
    it is, and is not owned. *)
Theorem ensure_seekable_buffers_stream (w : World)
    (reads : list (Result (list Init.Byte.byte))) (max_total_size : Z) (fobj : BinaryFile) :
  0 <= max_total_size ->
  (max_total_size < len (stream_content reads) ->
   ensure_seekable w (FromStream reads) max_total_size = Raise TotalSizeExceededError)
  /\ (forall f owned,
        ensure_seekable w (FromStream reads) max_total_size = Ok (f, owned) ->
        f = {| bf_content := stream_content reads; bf_pos := 0 |}
        /\ owned = true
        /\ len (stream_content reads) <= max_total_size)
  /\ ensure_seekable w (FromSeekable fobj) max_total_size = Ok (fobj, false).
Proof.
  intros Hmax. unfold ensure_seekable. split; [|split; [|done]].
  - intros Hover. by rewrite spool_loop_over.
  - intros f owned Hrun.
    destruct (spool_loop reads [] 0 max_total_size) as [out|e] eqn:Hloop; [|done].
    apply spool_loop_ok in Hloop as [-> Hlen]; [|done].
    simpl in Hrun. injection Hrun as <- <-. done.
Qed.

Lemma ensure_seekable_buffers_stream_witness :
  let reads := [Ok [Init.Byte.x41; Init.Byte.x42]; Ok [Init.Byte.x43]; Ok []] in
  ensure_seekable empty_world (FromStream reads) 2 = Raise TotalSizeExceededError
  /\ ensure_seekable empty_world (FromStream reads) 3
     = Ok ({| bf_content := [Init.Byte.x41; Init.Byte.x42; Init.Byte.x43]; bf_pos := 0 |},
           true).
Proof.
  intros reads. split; [|reflexivity].
  assert (0 <= 2) as Hmax by lia.
  destruct (ensure_seekable_buffers_stream empty_world reads 2
              {| bf_content := []; bf_pos := 0 |} Hmax) as [Hover _].
  apply Hover. by vm_compute.
Defined.

(** ** Witnesses for the runs *)

Lemma extractall_members_in_order_witness :
  let self := config forward_reference_after_dir SymlinkPolicy.REJECT
                HardlinkPolicy.INTERNAL in
  let run := @SafeTarFile.extractall AsciiUnicode PlainDisk ExactFloat self user_process
               (Some tmp_out) None empty_world in
  exists tr k,
    w_trace run.2 = w_trace empty_world ++ tr
    /\ members_done tr
       = List.map ti_name (take k (tf_members forward_reference_after_dir))
    /\ (k <= 3)%nat
    /\ ((k < 3)%nat -> is_ok run.1 = false)
    /\ (is_ok run.1 = true -> k = 3%nat).
Proof.
  intros self run.
  apply (@extractall_members_in_order AsciiUnicode PlainDisk ExactFloat self user_process
           (Some tmp_out) None empty_world (tf_members forward_reference_after_dir)).
  reflexivity.
Defined.

Lemma extractall_unknown_member_witness :
  let self := config internal_symlink_archive SymlinkPolicy.RESOLVE_INTERNAL
                HardlinkPolicy.REJECT in
  let run := @SafeTarFile.extractall AsciiUnicode PlainDisk ExactFloat self user_process
               (Some tmp_out) (Some [inl (u "target.txt"); inl (u "missing.txt")])
               empty_world in
  exists ok : bool,
    run.1 = Raise (if ok then KeyError else OSError)
    /\ w_trace run.2 = w_trace empty_world ++ [(EvMkdir tmp_out, ok)]
    /\ w_files run.2 = w_files empty_world.
Proof.
  intros self run.
  apply (@extractall_unknown_member AsciiUnicode PlainDisk ExactFloat self user_process
           tmp_out tmp_out [inl (u "target.txt"); inl (u "missing.txt")]
           (u "missing.txt") empty_world).
  - right. left. reflexivity.
  - intros i [<- | [<- | [<- | []]]]; by vm_compute.
  - reflexivity.
Defined.

Lemma ignored_symlink_is_skipped_witness :
  let self := config (text_reader [escaping_link]) SymlinkPolicy.IGNORE
                HardlinkPolicy.REJECT in
  let st := @initial_state ExactFloat self empty_world in
  @SafeTarFile._extract_one_inner AsciiUnicode PlainDisk ExactFloat self user_process
    escaping_link tmp_out st = (Ok tt, st)
  /\ (@SafeTarFile._extract_one AsciiUnicode PlainDisk ExactFloat self user_process
        escaping_link tmp_out st).1 = Ok tt
  /\ w_files (world (@SafeTarFile._extract_one AsciiUnicode PlainDisk ExactFloat self
                       user_process escaping_link tmp_out st).2)
     = w_files (world st).
Proof.
  intros self st.
  apply (@ignored_symlink_is_skipped AsciiUnicode PlainDisk ExactFloat self user_process
           escaping_link tmp_out st); reflexivity.
Defined.


(** ** [extract]: one member on its own *)

Section ExtractOne.
Context `{Unicode} `{PathOracle} `{PyFloat}.
Import SafeTarFile.

Lemma lone_hardlink_inner (self : t) (proc : Process) (info : TarInfo)
    (base_dir : Path) (st : RunState) :
  ti_type info = LNKTYPE -> extracted_paths st = ∅ ->
  exists e, _extract_one_inner self proc info base_dir st = (Raise e, st).
Proof.
  intros Htype Hempty.
  unfold _extract_one_inner, validate_entry_type, isdir, islnk, verify_hardlink_target.
  rewrite Htype, Hempty.
  change (type_in LNKTYPE _REGULAR_TYPES) with false.
  change (type_in LNKTYPE _DIR_TYPE) with false.
  change (type_in LNKTYPE _SYMLINK_TYPE) with false.
  change (type_in LNKTYPE _HARDLINK_TYPE) with true.
  change (N.eqb LNKTYPE DIRTYPE) with false.
  change (N.eqb LNKTYPE LNKTYPE) with true. cbv iota.
  match goal with
  | |- exists e, match _ with Ok d => @?k d | Raise _ => _ end = _ =>
      assert (exists e, k "extract"%string = (@Raise unit e, st)) as Hextract
  end.
  { cbv beta. change (String.eqb "extract" "skip") with false.
    change (String.eqb "extract" "defer_symlink") with false. cbv iota.
    destruct (validate_filename info) as [name|e]; [|eauto].
    destruct (validate_pax_path info) as [pax_path|e]; [|eauto].
    destruct (resolve_member_path (world st) base_dir name) as [dest|e]; [|eauto].
    destruct (match pax_path with Some _ => _ | None => _ end) as [?|e]; [|eauto].
    destruct (resolve_member_path (world st) base_dir (ti_linkname info)) as [target|e];
      simpl; [|eauto].
    rewrite bool_decide_eq_false_2 by set_solver. simpl. eauto. }
  cbv beta in Hextract.
  destruct (_is_sparse info);
    [destruct (_sparse_policy self) | destruct (_hardlink_policy self)]; eauto.
Qed.

(** X22.  A hard link cannot be extracted on its own.  [extract] hands its
    member to [extractall] alone, which starts with an empty set of
    extracted paths, so a hard-link member always ends in an exception,
    under either hard-link policy, and no file is created or changed.
    Naming the member gives the same run as passing its header. *)
Theorem extract_lone_hardlink_fails (self : t) (proc : Process) (info : TarInfo)
    (path : option Path) (w : World) :
  ti_type info = LNKTYPE ->
  is_ok (extract self proc (inr info) path w).1 = false
  /\ w_files (extract self proc (inr info) path w).2 = w_files w
  /\ (forall name, getmember (_tf self) name = Ok info ->
        extract self proc (inl name) path w = extract self proc (inr info) path w).
Proof.
  intros Htype. split; [|split]; [| |by intros name Hget; unfold extract; rewrite Hget].
  all: unfold extract; destruct path as [p|]; [|done].
  all: rewrite extractall_unfold; destruct (realpath w p) as [base_dir|]; [|done].
  all: unfold mkdir_parents;
    destruct (syscall_outcome (EvMkdir base_dir) id w) as (ok0 & Hr0 & _ & Hf0 & _);
    destruct (syscall (EvMkdir base_dir) id w) as [r0 w0]; simpl in Hr0, Hf0; subst r0.
  all: destruct ok0; simpl; [|done].
  all: unfold _extract_one;
    destruct (lone_hardlink_inner self proc info base_dir (initial_state self w0) Htype eq_refl)
      as [e ->].
  all: destruct (is_SafetarError e); simpl; try done.
  all: unfold _fire_event; destruct (_on_security_event self); simpl; done.
Qed.

(** X23.  [extract] looks the name up before anything else: for a name
    that, taken without its trailing slashes as [getmember] takes it, no
    member of the archive bears, it raises [KeyError] and leaves the world
    as it was.  The base directory is not made, nothing is logged, and the
    error comes even when [path] is missing. *)
Theorem extract_unknown_name (self : t) (proc : Process) (name : str)
    (path : option Path) (w : World) :
  (forall i, In i (tf_members (_tf self)) -> ti_name i <> rstrip SLASH name) ->
  extract self proc (inl name) path w = (Raise KeyError, w).
Proof.
  intros Hnone. unfold extract.
  assert (getmember (_tf self) name = Raise KeyError) as ->; [|done].
  unfold getmember.
  destruct (List.find _ _) as [info|] eqn:Hfind; [|done].
  apply List.find_some in Hfind as [Hin Heq].
  apply List.in_rev in Hin. apply str_eqb_eq in Heq. by apply Hnone in Hin.
Qed.
End ExtractOne.

Lemma extract_lone_hardlink_fails_witness :
  let self := config forward_reference_archive SymlinkPolicy.REJECT
                HardlinkPolicy.INTERNAL in
  let run := @SafeTarFile.extract AsciiUnicode PlainDisk ExactFloat self user_process
               (inr hardlink_copy) (Some tmp_out) empty_world in
  is_ok run.1 = false
  /\ w_files run.2 = w_files empty_world
  /\ (forall name, SafeTarFile.getmember (SafeTarFile._tf self) name = Ok hardlink_copy ->
        @SafeTarFile.extract AsciiUnicode PlainDisk ExactFloat self user_process
          (inl name) (Some tmp_out) empty_world = run).
Proof.
  intros self run.
  apply (@extract_lone_hardlink_fails AsciiUnicode PlainDisk ExactFloat self user_process
           hardlink_copy (Some tmp_out) empty_world).
  reflexivity.
Defined.

Lemma extract_unknown_name_witness :
  let self := config internal_symlink_archive SymlinkPolicy.RESOLVE_INTERNAL
                HardlinkPolicy.REJECT in
  @SafeTarFile.extract AsciiUnicode PlainDisk ExactFloat self user_process
    (inl (u "missing.txt")) None empty_world = (Raise KeyError, empty_world).
Proof.
  intros self.
  apply (@extract_unknown_name AsciiUnicode PlainDisk ExactFloat self user_process
           (u "missing.txt") None empty_world).
  intros i [<- | [<- | [<- | []]]]; by vm_compute.
Defined.

Example getmember_strips_trailing_slashes :
  SafeTarFile.getmember internal_symlink_archive (u "docs//") = Ok docs_dir
  /\ SafeTarFile.getmember internal_symlink_archive (u "docs") = Ok docs_dir
  /\ SafeTarFile.getmember internal_symlink_archive (u "/docs") = Raise KeyError.
Proof. by vm_compute. Qed.
